(** * WITH clauses and window functions of the gen query builder

    A shallow embedding of the SQL-fragment composers of the repository:

    - [Field]  : the [field] package ([expr], [RawExpr], [Desc] and the
                 [WindowFunction] constructors);
    - [Window] : window.go ([WindowSpec], [FrameSpec], [buildFrameClause],
                 [buildWindowExpression], [windowViewDO]);
    - [FieldWindow] : [WindowFunction.Over] of the [field] package, which
                 takes a [WindowSpec];
    - [With]   : with.go ([WithQuery], the string based [WindowFunction]
                 and its [buildSQL]);
    - [Cte]    : cte.go ([cteViewDO], [buildCTEQuery]);
    - [FieldExpr] : expr.go of the [field] package ([As], [BuildColumn],
                 [ConcatCol], the JSON path functions, [CaseWhen]);
    - [CteBuilder] : cte.go ([cteImpl.Build], [CTEWindowBuilder]).

    Go strings are byte strings, modelled by [string]; [len] is
    [String.length].  A slice is a [list]; a nil-able pointer or a nil-able
    [interface{}] is an [option].  The gorm library is outside the
    repository: a [*gorm.DB] is modelled by the calls made on it. *)

From Stdlib Require Import String Ascii List ZArith Lia Bool Arith.
Import ListNotations.
Local Open Scope list_scope.
Local Open Scope string_scope.

(** ** gorm.io/gorm/clause: the values the code builds *)

Module Clause.

(** [clause.Column]. *)
Record Column : Type := mkColumn
  { Table : string; Name : string; Alias : string; Raw : bool }.

Definition Column_zero : Column :=
  {| Table := ""; Name := ""; Alias := ""; Raw := false |}.

(** An [interface{}] that travels as a bound parameter: the code stores
    integers, strings, [clause.Column]s and [clause.Expr]s.
    [clause.Expr] is the struct [{SQL string; Vars []interface{}}]. *)
Inductive value : Type :=
| VInt (n : Z)
| VString (s : string)
| VColumn (c : Column)
| VExpr (x : Expr)
with Expr : Type :=
| mkExpr (SQL : string) (Vars : list value).

Definition SQL (x : Expr) : string := let '(mkExpr s _) := x in s.
Definition Vars (x : Expr) : list value := let '(mkExpr _ v) := x in v.

End Clause.

(** ** Package field: expressions and window functions *)

Module Field.
Import Clause.

Inductive BuildOpt : Type := WithTable | WithAll | WithoutQuote.

(** [type expr struct { col clause.Column; e clause.Expression;
    buildOpts []BuildOpt }].  Every [field.Expr] of the package embeds
    this struct; [e] is nil for a plain column. *)
Record expr : Type := mkexpr
  { col : Column; e : option Expr; buildOpts : list BuildOpt }.

Definition ColumnName (x : expr) : string := Name (col x).

Definition RawExpr (x : expr) : value :=
  match e x with
  | None => VColumn (col x)
  | Some ex => VExpr ex
  end.

Definition setE (x : expr) (expression : Expr) : expr :=
  {| col := col x; e := Some expression; buildOpts := buildOpts x |}.

(** [func NewExpr(expression clause.Expression) Expr]. *)
Definition NewExpr (expression : Expr) : expr :=
  {| col := Column_zero; e := Some expression; buildOpts := [] |}.

Definition Desc (x : expr) : expr := setE x (mkExpr "? DESC" [RawExpr x]).
Definition Asc (x : expr) : expr := setE x (mkExpr "? ASC" [RawExpr x]).

(** A plain column of a table, as [field.NewString(table, column)] and
    its siblings build it. *)
Definition NewField (table column : string) : expr :=
  {| col := {| Table := table; Name := column; Alias := ""; Raw := false |};
     e := None; buildOpts := [] |}.

(** [type WindowFunction struct { expr; funcName string }]. *)
Record WindowFunction : Type := mkWindowFunction
  { wexpr : expr; funcName : string }.

Definition WindowFuncName (w : WindowFunction) : string := funcName w.

(** [RawExpr] is promoted from the embedded [expr]. *)
Definition WRawExpr (w : WindowFunction) : value := RawExpr (wexpr w).

Definition RowNumber (x : expr) : WindowFunction :=
  {| wexpr := setE x (mkExpr "ROW_NUMBER()" []); funcName := "ROW_NUMBER()" |}.
Definition Rank (x : expr) : WindowFunction :=
  {| wexpr := setE x (mkExpr "RANK()" []); funcName := "RANK()" |}.
Definition DenseRank (x : expr) : WindowFunction :=
  {| wexpr := setE x (mkExpr "DENSE_RANK()" []); funcName := "DENSE_RANK()" |}.
Definition PercentRank (x : expr) : WindowFunction :=
  {| wexpr := setE x (mkExpr "PERCENT_RANK()" []);
     funcName := "PERCENT_RANK()" |}.
Definition CumeDist (x : expr) : WindowFunction :=
  {| wexpr := setE x (mkExpr "CUME_DIST()" []); funcName := "CUME_DIST()" |}.

(** [Lag(offset int, defaultValue ...interface{})]: the variadic
    argument is a slice, of which only the first element is read. *)
Definition Lag (x : expr) (offset : Z) (defaultValue : list value)
  : WindowFunction :=
  let '(sql, vars) :=
    match defaultValue with
    | d :: _ => ("LAG(?, ?, ?)", [RawExpr x; VInt offset; d])
    | [] => ("LAG(?, ?)", [RawExpr x; VInt offset])
    end in
  {| wexpr := setE x (mkExpr sql vars); funcName := sql |}.

Definition Lead (x : expr) (offset : Z) (defaultValue : list value)
  : WindowFunction :=
  let '(sql, vars) :=
    match defaultValue with
    | d :: _ => ("LEAD(?, ?, ?)", [RawExpr x; VInt offset; d])
    | [] => ("LEAD(?, ?)", [RawExpr x; VInt offset])
    end in
  {| wexpr := setE x (mkExpr sql vars); funcName := sql |}.

(** The one-argument functions share one shape: [sql := "F(?)"],
    [vars := {e.RawExpr()}]. *)
Definition unary (sql : string) (x : expr) : WindowFunction :=
  {| wexpr := setE x (mkExpr sql [RawExpr x]); funcName := sql |}.

Definition FirstValue := unary "FIRST_VALUE(?)".
Definition LastValue := unary "LAST_VALUE(?)".
Definition WindowSum := unary "SUM(?)".
Definition WindowAvg := unary "AVG(?)".
Definition WindowCount := unary "COUNT(?)".
Definition WindowMax := unary "MAX(?)".
Definition WindowMin := unary "MIN(?)".

Definition NthValue (x : expr) (n : Z) : WindowFunction :=
  {| wexpr := setE x (mkExpr "NTH_VALUE(?, ?)" [RawExpr x; VInt n]);
     funcName := "NTH_VALUE(?, ?)" |}.

Definition Ntile (x : expr) (n : Z) : WindowFunction :=
  {| wexpr := setE x (mkExpr "NTILE(?)" [VInt n]); funcName := "NTILE(?)" |}.

Definition RowNumberFunc : WindowFunction :=
  {| wexpr := NewExpr (mkExpr "ROW_NUMBER()" []); funcName := "ROW_NUMBER()" |}.
Definition RankFunc : WindowFunction :=
  {| wexpr := NewExpr (mkExpr "RANK()" []); funcName := "RANK()" |}.
Definition DenseRankFunc : WindowFunction :=
  {| wexpr := NewExpr (mkExpr "DENSE_RANK()" []); funcName := "DENSE_RANK()" |}.
Definition PercentRankFunc : WindowFunction :=
  {| wexpr := NewExpr (mkExpr "PERCENT_RANK()" []);
     funcName := "PERCENT_RANK()" |}.

End Field.

(** ** window.go: window specifications and their compiler *)

Module Window.
Import Clause Field.

(** [type FrameType string] and [type FrameBoundType string] are named
    string types; the constants below are the values the package
    declares, and the functions accept any string. *)
Definition FrameType : Type := string.
Definition FrameRows : FrameType := "ROWS".
Definition FrameRange : FrameType := "RANGE".

Definition FrameBoundType : Type := string.
Definition UnboundedPreceding : FrameBoundType := "UNBOUNDED PRECEDING".
Definition Preceding : FrameBoundType := "PRECEDING".
Definition CurrentRow : FrameBoundType := "CURRENT ROW".
Definition Following : FrameBoundType := "FOLLOWING".
Definition UnboundedFollowing : FrameBoundType := "UNBOUNDED FOLLOWING".

(** [FrameBound{Type, Offset}]; [Offset] is an [interface{}], nil when
    the caller leaves it out. *)
Record FrameBound : Type := mkFrameBound
  { bType : FrameBoundType; Offset : option value }.

(** [FrameSpec{Type, Start, End}]; [End] is a pointer. *)
Record FrameSpec : Type := mkFrameSpec
  { fType : FrameType; Start : FrameBound; End_ : option FrameBound }.

(** [WindowSpec{PartitionBy, OrderBy, Frame}]; [Frame] is a pointer. *)
Record WindowSpec : Type := mkWindowSpec
  { PartitionBy : list expr; OrderBy : list expr; Frame : option FrameSpec }.

(** [WindowSpec{}]. *)
Definition WindowSpec_zero : WindowSpec :=
  {| PartitionBy := []; OrderBy := []; Frame := None |}.

(** [buildFrameClause]: [result[:len(result)-len(t)]] is the prefix of
    [result] of that length. *)
Definition buildFrameClause (frame : FrameSpec) : string :=
  let result := bType (Start frame) in
  let result :=
    match Offset (Start frame) with
    | Some _ => "? " ++ result
    | None => result
    end in
  match End_ frame with
  | Some fin =>
      let result := result ++ " AND " ++ bType fin in
      match Offset fin with
      | Some _ =>
          substring 0 (String.length result - String.length (bType fin)) result
          ++ "? " ++ bType fin
      | None => result
      end
  | None => result
  end.

(** The body shared by the two [for i, col := range ...] loops of
    [buildWindowExpression]: from index [i] on, write [", "] before every
    column but the first, write ["?"], and append the column's
    [RawExpr()] to [vars]. *)
Fixpoint columns_loop (i : nat) (cols : list expr)
    (st : string * list value) : string * list value :=
  match cols with
  | [] => st
  | c :: rest =>
      let '(overClause, vars) := st in
      let overClause := if (0 <? i)%nat then overClause ++ ", " else overClause in
      columns_loop (S i) rest (overClause ++ "?", (vars ++ [RawExpr c])%list)
  end.

(** The [OVER (...)] text and the variables collected for it. *)
Definition buildOverClause (spec : WindowSpec) : string * list value :=
  let st := (" OVER (", @nil value) in
  let st :=
    if (0 <? List.length (PartitionBy spec))%nat then
      columns_loop 0 (PartitionBy spec) (fst st ++ "PARTITION BY ", snd st)
    else st in
  let st :=
    if (0 <? List.length (OrderBy spec))%nat then
      let st :=
        if (0 <? List.length (PartitionBy spec))%nat
        then (fst st ++ " ", snd st) else st in
      columns_loop 0 (OrderBy spec) (fst st ++ "ORDER BY ", snd st)
    else st in
  let st :=
    match Frame spec with
    | Some frame =>
        ((fst st ++ " " ++ fType frame ++ " ") ++ buildFrameClause frame,
         snd st)
    | None => st
    end in
  (fst st ++ ")", snd st).

(** [buildWindowExpression(windowFunc, spec)]: the result is
    [field.NewExpr(clause.Expr{SQL: sql, Vars: allVars})]; the model
    returns that [clause.Expr]. *)
Definition buildWindowExpression (windowFunc : WindowFunction)
    (spec : WindowSpec) : Expr :=
  let '(overClause, vars) := buildOverClause spec in
  let sql := WindowFuncName windowFunc ++ overClause in
  let allVars := ([WRawExpr windowFunc] ++ vars)%list in
  mkExpr sql allVars.

(** [windowViewDO]: the embedded [*DO] is the external query object, kept
    abstract as the type parameter [DO]. *)
Record windowViewDO (DO : Type) : Type := mkWindowViewDO
  { wDO : DO;
    windowFuncs : list WindowFunction;
    windowSpecs : list WindowSpec }.
Arguments mkWindowViewDO {DO}.
Arguments wDO {DO}.
Arguments windowFuncs {DO}.
Arguments windowSpecs {DO}.

Section View.
Context {DO : Type}.

(** [d.With()]. *)
Definition With (d : DO) : windowViewDO DO :=
  {| wDO := d; windowFuncs := []; windowSpecs := [] |}.

Definition Window (w : windowViewDO DO) (windowFunc : WindowFunction)
  : windowViewDO DO :=
  {| wDO := wDO w;
     windowFuncs := (windowFuncs w ++ [windowFunc])%list;
     windowSpecs := windowSpecs w |}.

Definition Over (w : windowViewDO DO) (spec : WindowSpec)
  : windowViewDO DO :=
  {| wDO := wDO w;
     windowFuncs := windowFuncs w;
     windowSpecs := (windowSpecs w ++ [spec])%list |}.

(** [lastSpec := &specs[len(specs)-1]; lastSpec.f = v], after a zero
    spec was appended to an empty slice. *)
Definition edit_last (upd : WindowSpec -> WindowSpec)
    (specs : list WindowSpec) : list WindowSpec :=
  let specs :=
    if (List.length specs =? 0)%nat then (specs ++ [WindowSpec_zero])%list
    else specs in
  (firstn (List.length specs - 1) specs
   ++ map upd (skipn (List.length specs - 1) specs))%list.

Definition ViewPartitionBy (w : windowViewDO DO) (columns : list expr)
  : windowViewDO DO :=
  {| wDO := wDO w;
     windowFuncs := windowFuncs w;
     windowSpecs :=
       edit_last (fun s => {| PartitionBy := columns;
                              OrderBy := OrderBy s;
                              Frame := Frame s |}) (windowSpecs w) |}.

Definition WindowOrderBy (w : windowViewDO DO) (columns : list expr)
  : windowViewDO DO :=
  {| wDO := wDO w;
     windowFuncs := windowFuncs w;
     windowSpecs :=
       edit_last (fun s => {| PartitionBy := PartitionBy s;
                              OrderBy := columns;
                              Frame := Frame s |}) (windowSpecs w) |}.

Definition ViewFrame (w : windowViewDO DO) (frameSpec : FrameSpec)
  : windowViewDO DO :=
  {| wDO := wDO w;
     windowFuncs := windowFuncs w;
     windowSpecs :=
       edit_last (fun s => {| PartitionBy := PartitionBy s;
                              OrderBy := OrderBy s;
                              Frame := Some frameSpec |}) (windowSpecs w) |}.

(** The loop of [Select]: [for i, windowFunc := range funcs], with
    [var spec WindowSpec; if i < len(specs) { spec = specs[i] }]. *)
Fixpoint window_loop (i : nat) (funcs : list WindowFunction)
    (specs : list WindowSpec) (allColumns : list expr) : list expr :=
  match funcs with
  | [] => allColumns
  | windowFunc :: rest =>
      let spec :=
        if (i <? List.length specs)%nat then nth i specs WindowSpec_zero
        else WindowSpec_zero in
      let windowExpr := NewExpr (buildWindowExpression windowFunc spec) in
      window_loop (S i) rest specs (allColumns ++ [windowExpr])%list
  end.

(** The column list [Select] hands to [w.DO.Select]. *)
Definition Select_columns (w : windowViewDO DO) (columns : list expr)
  : list expr :=
  window_loop 0 (windowFuncs w) (windowSpecs w) ([] ++ columns)%list.

(** [Select]: [DO.Select] belongs to the external query object and is
    a parameter. *)
Definition Select {Dao : Type} (DO_Select : DO -> list expr -> Dao)
    (w : windowViewDO DO) (columns : list expr) : Dao :=
  DO_Select (wDO w) (Select_columns w columns).

End View.

End Window.

(** ** Package field, window part: [WindowFunction.Over] *)

Module FieldWindow.
Import Clause Field Window.

(** [func (w WindowFunction) Over(spec WindowSpec) WindowFunction]: the
    same two column loops as [buildWindowExpression]; of the frames only
    [UNBOUNDED PRECEDING .. CURRENT ROW] is written out. *)
Definition Over (w : WindowFunction) (spec : WindowSpec) : WindowFunction :=
  let st := (" OVER (", @nil value) in
  let st :=
    if (0 <? List.length (PartitionBy spec))%nat then
      columns_loop 0 (PartitionBy spec) (fst st ++ "PARTITION BY ", snd st)
    else st in
  let st :=
    if (0 <? List.length (OrderBy spec))%nat then
      let st :=
        if (0 <? List.length (PartitionBy spec))%nat
        then (fst st ++ " ", snd st) else st in
      columns_loop 0 (OrderBy spec) (fst st ++ "ORDER BY ", snd st)
    else st in
  let st :=
    match Frame spec with
    | Some frame =>
        let overClause := fst st ++ " " ++ fType frame ++ " " in
        let simple :=
          (bType (Start frame) =? UnboundedPreceding)
          && match End_ frame with
             | Some fin => bType fin =? CurrentRow
             | None => false
             end in
        (if simple then overClause ++ "UNBOUNDED PRECEDING AND CURRENT ROW"
         else overClause, snd st)
    | None => st
    end in
  let overClause := fst st ++ ")" in
  let sql := funcName w ++ overClause in
  let allVars := ([WRawExpr w] ++ snd st)%list in
  {| wexpr := setE (wexpr w) (mkExpr sql allVars); funcName := sql |}.

End FieldWindow.

(** ** gorm, as far as the code touches it *)

Module Gorm.
Import Clause.

(** [gorm.Statement], of which the code reads [SQL.String()] and [Vars]. *)
Record Statement : Type := mkStatement
  { stmtSQL : string; stmtVars : list value }.

(** A [*gorm.DB], recorded as the chain of calls that produced it. *)
Inductive DB : Type :=
| Handle (name : string)
| Session (db : DB) (NewDB : bool)
| Table (db : DB) (name : string)
| Raw (db : DB) (sql : string) (values : list value)
| Clauses (db : DB) (SQL : string) (Args : list value).

(** A [SubQuery] is used through [underlyingDB()] only, of which the code
    reads the [Statement] pointer and the string [ToSQL] returns for the
    [Find] callback. *)
Record SubQuery : Type := mkSubQuery
  { underlyingDB : DB;
    Statement_ : option Statement;
    ToSQL : string }.

(** The last [Raw] call of a chain: the SQL text and the values handed
    over for execution. *)
Fixpoint last_Raw (db : DB) : option (string * list value) :=
  match db with
  | Handle _ => None
  | Session d _ => last_Raw d
  | Table d _ => last_Raw d
  | Raw _ sql values => Some (sql, values)
  | Clauses d _ _ => last_Raw d
  end.

(** The embedded [*DO] of the views: the code reads and assigns its [db]
    field. *)
Record DO : Type := mkDO { db : DB }.

End Gorm.

(** ** with.go: WITH queries and string based window functions *)

Module With.
Import Clause Field Gorm.

Record WithClause : Type := mkWithClause
  { Name : string; Query : SubQuery }.

Record WithQuery : Type := mkWithQuery
  { wDO : DO; withClauses : list WithClause }.

(** [func (d *DO) With(name, query) *WithQuery]. *)
Definition DO_With (d : DO) (name : string) (query : SubQuery) : WithQuery :=
  {| wDO := d; withClauses := [ {| Name := name; Query := query |} ] |}.

(** [func (w *WithQuery) With(name, query) *WithQuery]. *)
Definition With (w : WithQuery) (name : string) (query : SubQuery)
  : WithQuery :=
  {| wDO := wDO w;
     withClauses :=
       (withClauses w ++ [ {| Name := name; Query := query |} ])%list |}.

(** The loop over [w.withClauses] that [Select] and [From] share; the
    state is [(withParts, allArgs)]. *)
Fixpoint with_loop (clauses : list WithClause)
    (st : list string * list value) : list string * list value :=
  match clauses with
  | [] => st
  | withClause :: rest =>
      let '(withParts, allArgs) := st in
      let subDB := Query withClause in
      let sql := ToSQL subDB in
      let '(sql, allArgs) :=
        match Statement_ subDB with
        | Some stmt => (stmtSQL stmt, (allArgs ++ stmtVars stmt)%list)
        | None => (sql, allArgs)
        end in
      with_loop rest
        ((withParts ++ [(Name withClause ++ " AS (" ++ sql ++ ")")%string])%list,
         allArgs)
  end.

Section Select.
(** Helpers of the query object that live outside the repository's
    sources. *)
Context {Dao : Type}.
Variable buildExpr4Select : DB -> list expr -> string * list value.
Variable getInstance : DO -> DB -> Dao.

(** The two arguments [Select] gives to [newDB.Raw]. *)
Definition Select_Raw (w : WithQuery) (columns : list expr)
  : string * list value :=
  let '(withParts, allArgs) := with_loop (withClauses w) ([], []) in
  let withSQL := "WITH " ++ String.concat ", " withParts in
  let newDB := Session (db (wDO w)) false in
  if (0 <? List.length columns)%nat then
    let '(selectSQL, selectArgs) := buildExpr4Select newDB columns in
    let finalSQL := withSQL ++ " SELECT " ++ selectSQL in
    let allArgs := (allArgs ++ selectArgs)%list in
    (finalSQL, allArgs)
  else
    let finalSQL := withSQL ++ " SELECT *" in
    (finalSQL, allArgs).

Definition Select (w : WithQuery) (columns : list expr) : Dao :=
  let newDB := Session (db (wDO w)) false in
  let '(finalSQL, allArgs) := Select_Raw w columns in
  getInstance (wDO w) (Raw newDB finalSQL allArgs).

(** [From]: the WITH prefix travels as a [WithClauseExpr] clause. *)
Definition From (w : WithQuery) (cteName : string) : Dao :=
  let '(withParts, allArgs) := with_loop (withClauses w) ([], []) in
  let withSQL := "WITH " ++ String.concat ", " withParts in
  let newDB := Session (db (wDO w)) false in
  let newDB := Table newDB cteName in
  let newDB := Clauses newDB withSQL allArgs in
  getInstance (wDO w) newDB.

End Select.

(** [FrameClause{Type, Start, End string}]. *)
Record FrameClause : Type := mkFrameClause
  { Type_ : string; Start : string; End_ : string }.

Record OverClause : Type := mkOverClause
  { partitionBy : list expr; orderBy : list expr;
    frame : option FrameClause }.

Definition OverClause_zero : OverClause :=
  {| partitionBy := []; orderBy := []; frame := None |}.

Record WindowFunction : Type := mkWindowFunction
  { Function : string; overClause : option OverClause }.

Definition RowNumber : WindowFunction :=
  {| Function := "ROW_NUMBER()"; overClause := None |}.
Definition Rank : WindowFunction :=
  {| Function := "RANK()"; overClause := None |}.
Definition DenseRank : WindowFunction :=
  {| Function := "DENSE_RANK()"; overClause := None |}.

(** [expr.(field.IColumnName)] holds for every [field.Expr], whose
    interface embeds [IColumnName]; the text of a column is its
    [ColumnName()]. *)
Definition exprStr (x : expr) : string := ColumnName x.

Definition aggregate (name : string) (x : expr) : WindowFunction :=
  {| Function := name ++ "(" ++ exprStr x ++ ")"; overClause := None |}.

Definition Count := aggregate "COUNT".
Definition Sum := aggregate "SUM".
Definition Avg := aggregate "AVG".
Definition Max := aggregate "MAX".
Definition Min := aggregate "MIN".

(** [Over()] allocates the clause on first use and returns the pointer;
    the setters write through it.  [Over w] is the receiver after the
    call, [over_set] a setter applied through the pointer. *)
Definition Over (w : WindowFunction) : WindowFunction :=
  match overClause w with
  | None => {| Function := Function w; overClause := Some OverClause_zero |}
  | Some _ => w
  end.

Definition over_set (f : OverClause -> OverClause) (w : WindowFunction)
  : WindowFunction :=
  match overClause w with
  | None => w
  | Some o => {| Function := Function w; overClause := Some (f o) |}
  end.

Definition PartitionBy (exprs : list expr) (o : OverClause) : OverClause :=
  {| partitionBy := exprs; orderBy := orderBy o; frame := frame o |}.
Definition OrderBy (exprs : list expr) (o : OverClause) : OverClause :=
  {| partitionBy := partitionBy o; orderBy := exprs; frame := frame o |}.
Definition Rows (start fin : string) (o : OverClause) : OverClause :=
  {| partitionBy := partitionBy o; orderBy := orderBy o;
     frame := Some {| Type_ := "ROWS"; Start := start; End_ := fin |} |}.
Definition Range (start fin : string) (o : OverClause) : OverClause :=
  {| partitionBy := partitionBy o; orderBy := orderBy o;
     frame := Some {| Type_ := "RANGE"; Start := start; End_ := fin |} |}.

(** [for _, expr := range exprs { names = append(names, ...) }]. *)
Fixpoint names_loop (exprs : list expr) (names : list string) : list string :=
  match exprs with
  | [] => names
  | x :: rest => names_loop rest (names ++ [exprStr x])%list
  end.

Definition buildSQL (w : WindowFunction) : string :=
  let sql := Function w ++ " OVER (" in
  let sql :=
    match overClause w with
    | Some o =>
        let parts : list string := [] in
        let parts :=
          if (0 <? List.length (partitionBy o))%nat then
            (parts ++ [("PARTITION BY "
                        ++ String.concat ", "
                             (names_loop (partitionBy o) []))%string])%list
          else parts in
        let parts :=
          if (0 <? List.length (orderBy o))%nat then
            (parts ++ [("ORDER BY "
                        ++ String.concat ", "
                             (names_loop (orderBy o) []))%string])%list
          else parts in
        let parts :=
          match frame o with
          | Some f =>
              let frameSQL := Type_ f in
              let frameSQL :=
                if negb (End_ f =? "") then
                  frameSQL ++ " BETWEEN " ++ Start f ++ " AND " ++ End_ f
                else frameSQL ++ " " ++ Start f in
              (parts ++ [frameSQL])%list
          | None => parts
          end in
        sql ++ String.concat " " parts
    | None => sql
    end in
  sql ++ ")".

End With.

(** ** cte.go: the CTE view *)

Module Cte.
Import Clause Field Gorm Window.

(** [cteImpl{name, query}], the only [CTE] of the package. *)
Record cteImpl : Type := mkCte { name : string; query : SubQuery }.

Definition CTEName (c : cteImpl) : string := name c.
Definition CTEQuery (c : cteImpl) : SubQuery := query c.

Record cteViewDO : Type := mkCteViewDO
  { cDO : DO;
    ctes : list cteImpl;
    windowFuncs : list WindowFunction;
    windowSpecs : list WindowSpec;
    fromCTE : string }.

Definition set_db (c : cteViewDO) (d : DB) : cteViewDO :=
  {| cDO := {| db := d |}; ctes := ctes c; windowFuncs := windowFuncs c;
     windowSpecs := windowSpecs c; fromCTE := fromCTE c |}.

(** [func WithCTE(name, query) CTEView]. *)
Definition NewWithCTE (name : string) (query : SubQuery) : cteViewDO :=
  {| cDO := {| db := Session (underlyingDB query) true |};
     ctes := [ {| name := name; query := query |} ];
     windowFuncs := []; windowSpecs := []; fromCTE := "" |}.

(** [func (c *cteViewDO) WithCTE(name, query) CTEView]. *)
Definition WithCTE (c : cteViewDO) (name : string) (query : SubQuery)
  : cteViewDO :=
  {| cDO := cDO c;
     ctes := (ctes c ++ [ {| name := name; query := query |} ])%list;
     windowFuncs := windowFuncs c; windowSpecs := windowSpecs c;
     fromCTE := fromCTE c |}.

Definition FromCTE (c : cteViewDO) (cteName : string) : cteViewDO :=
  {| cDO := {| db := Table (db (cDO c)) cteName |};
     ctes := ctes c; windowFuncs := windowFuncs c;
     windowSpecs := windowSpecs c; fromCTE := cteName |}.

Definition Window (c : cteViewDO) (windowFunc : WindowFunction) : cteViewDO :=
  {| cDO := cDO c; ctes := ctes c;
     windowFuncs := (windowFuncs c ++ [windowFunc])%list;
     windowSpecs := windowSpecs c; fromCTE := fromCTE c |}.

(** [PartitionBy], [WindowOrderBy] and [Frame] edit the last
    specification, as those of the window view do. *)
Definition CtePartitionBy (c : cteViewDO) (columns : list expr) : cteViewDO :=
  {| cDO := cDO c; ctes := ctes c; windowFuncs := windowFuncs c;
     windowSpecs :=
       edit_last (fun s => {| PartitionBy := columns; OrderBy := OrderBy s;
                              Frame := Frame s |}) (windowSpecs c);
     fromCTE := fromCTE c |}.

Definition CteWindowOrderBy (c : cteViewDO) (columns : list expr)
  : cteViewDO :=
  {| cDO := cDO c; ctes := ctes c; windowFuncs := windowFuncs c;
     windowSpecs :=
       edit_last (fun s => {| PartitionBy := PartitionBy s;
                              OrderBy := columns;
                              Frame := Frame s |}) (windowSpecs c);
     fromCTE := fromCTE c |}.

Definition CteFrame (c : cteViewDO) (frameSpec : FrameSpec) : cteViewDO :=
  {| cDO := cDO c; ctes := ctes c; windowFuncs := windowFuncs c;
     windowSpecs :=
       edit_last (fun s => {| PartitionBy := PartitionBy s;
                              OrderBy := OrderBy s;
                              Frame := Some frameSpec |}) (windowSpecs c);
     fromCTE := fromCTE c |}.

(** The loop of [buildCTEQuery] over [c.ctes], from index [i] on. *)
Fixpoint cte_loop (i : nat) (l : list cteImpl) (cteSQL : string) : string :=
  match l with
  | [] => cteSQL
  | cte :: rest =>
      let cteSQL := if (0 <? i)%nat then cteSQL ++ ", " else cteSQL in
      let sql := ToSQL (CTEQuery cte) in
      cte_loop (S i) rest (cteSQL ++ (CTEName cte ++ " AS (" ++ sql ++ ")"))
  end.

(** [buildCTEQuery]: [cteVars] is declared and handed to [Raw]; nothing
    is appended to it in between. *)
Definition buildCTEQuery (c : cteViewDO) (d : DB) : DB :=
  if (List.length (ctes c) =? 0)%nat then d
  else
    let cteVars : list value := [] in
    let cteSQL := "WITH " in
    let cteSQL := cte_loop 0 (ctes c) cteSQL in
    Raw d (cteSQL ++ " SELECT * FROM " ++ fromCTE c) cteVars.

(** [Select] assigns [c.db]; the receiver after the call is returned
    together with the column list handed to [c.DO.Select]. *)
Definition Select_step (c : cteViewDO) (columns : list expr)
  : list expr * cteViewDO :=
  let allColumns :=
    window_loop 0 (windowFuncs c) (windowSpecs c) ([] ++ columns)%list in
  let c :=
    if (0 <? List.length (ctes c))%nat
    then set_db c (buildCTEQuery c (db (cDO c))) else c in
  (allColumns, c).

Definition Select {Dao : Type} (DO_Select : DO -> list expr -> Dao)
    (c : cteViewDO) (columns : list expr) : Dao * cteViewDO :=
  let '(allColumns, c) := Select_step c columns in
  (DO_Select (cDO c) allColumns, c).

End Cte.

(** ** Package field, expr.go: columns and expressions *)

Module FieldExpr.
Import Clause Field.

(** [func (e expr) As(alias string) Expr]. *)
Definition As (x : expr) (alias : string) : expr :=
  match e x with
  | Some ex =>
      setE x (mkExpr "? AS ?"
                [VExpr ex;
                 VColumn {| Table := ""; Name := alias; Alias := "";
                            Raw := false |}])
  | None =>
      {| col := {| Table := Table (col x); Name := Name (col x);
                   Alias := alias; Raw := Raw (col x) |};
         e := e x; buildOpts := buildOpts x |}
  end.

(** The [switch opt] of [BuildColumn], on the column under construction. *)
Definition apply_opt (x : expr) (c : Column) (opt : BuildOpt) : Column :=
  match opt with
  | WithTable =>
      {| Table := Table (col x); Name := Name c; Alias := Alias c;
         Raw := Raw c |}
  | WithAll =>
      {| Table := Table (col x); Name := Name c; Alias := Alias (col x);
         Raw := Raw c |}
  | WithoutQuote =>
      {| Table := Table c; Name := Name c; Alias := Alias c; Raw := true |}
  end.

(** The column [BuildColumn] quotes: [clause.Column{Name: e.col.Name}]
    after the options of the expression and of the call. *)
Definition built_column (x : expr) (opts : list BuildOpt) : Column :=
  fold_left (apply_opt x) (buildOpts x ++ opts)%list
    {| Table := ""; Name := Name (col x); Alias := ""; Raw := false |}.

Section BuildColumn.
(** [stmt.Quote] of gorm, on a table name and on a column. *)
Variable Quote_name : string -> string.
Variable Quote_column : Column -> string.

Definition BuildColumn (x : expr) (opts : list BuildOpt) : string :=
  let c := built_column x opts in
  if Name c =? "*" then
    if negb (Table c =? "") then Quote_name (Table c) ++ ".*"
    else "*"
  else Quote_column c.

End BuildColumn.

(** The loop of [ConcatCol]; the state is [(placeholders, vars)]. *)
Fixpoint concat_loop (cols : list expr) (st : list string * list value)
  : list string * list value :=
  match cols with
  | [] => st
  | c :: rest =>
      let '(placeholders, vars) := st in
      concat_loop rest
        ((placeholders ++ ["?"])%list, (vars ++ [RawExpr c])%list)
  end.

(** [ConcatCol] returns a [Field], the struct that wraps an [expr]. *)
Definition ConcatCol (x : expr) (cols : list expr) : expr :=
  let '(placeholders, vars) := concat_loop cols (["?"], [RawExpr x]) in
  setE x (mkExpr ("CONCAT(" ++ String.concat "," placeholders ++ ")") vars).

(** [for _, path := range paths { _paths = append(_paths, "'"+path+"'") }]. *)
Fixpoint quote_loop (paths : list string) (_paths : list string)
  : list string :=
  match paths with
  | [] => _paths
  | path :: rest => quote_loop rest (_paths ++ [("'" ++ path ++ "'")%string])%list
  end.

(** The path text [JsonEq], [JsonValueNull] and [JsonValueNotNull] build
    with the same lines.  [indexPath := len(_paths) - 1] is an [int];
    [_paths[:indexPath]] and [_paths[indexPath]] panic for [-1], which is
    [None] here. *)
Definition json_path (paths : list string) : option string :=
  let _paths := quote_loop paths [] in
  let indexPath := (Z.of_nat (List.length _paths) - 1)%Z in
  if (indexPath <? 0)%Z then None
  else
    let pathStr := String.concat "->" (firstn (Z.to_nat indexPath) _paths) in
    let pathStr :=
      if (0 <? String.length pathStr)%nat then "->" ++ pathStr else pathStr in
    Some (pathStr ++ "->>" ++ nth (Z.to_nat indexPath) _paths "").

Definition JsonEq (x : expr) (paths : list string) (v : value)
  : option expr :=
  match json_path paths with
  | Some pathStr =>
      Some (setE x (mkExpr ("?" ++ pathStr ++ " = ?") [RawExpr x; v]))
  | None => None
  end.

Definition JsonValueNull (x : expr) (paths : list string) : option expr :=
  match json_path paths with
  | Some pathStr =>
      Some (setE x (mkExpr ("?" ++ pathStr ++ " is null") [RawExpr x]))
  | None => None
  end.

Definition JsonValueNotNull (x : expr) (paths : list string) : option expr :=
  match json_path paths with
  | Some pathStr =>
      Some (setE x (mkExpr ("?" ++ pathStr ++ " is not null") [RawExpr x]))
  | None => None
  end.

Section CaseWhen.
(** [fmt.Sprintf("%s", v)] of the Go library, on a bound value. *)
Variable Sprint : value -> string.

(** The loop of [CaseWhen]; [results[i]] panics past the end of
    [results], which is [None] here. *)
Fixpoint case_loop (i : nat) (conditions results : list expr)
    (st : list string * list value) : option (list string * list value) :=
  match conditions with
  | [] => Some st
  | condition :: rest =>
      match nth_error results i with
      | None => None
      | Some result =>
          let '(cases, vars) := st in
          case_loop (S i) rest results
            ((cases ++ [("WHEN " ++ Sprint (RawExpr condition) ++ " THEN "
                         ++ Sprint (RawExpr result))%string])%list,
             (vars ++ [RawExpr condition; RawExpr result])%list)
      end
  end.

Definition CaseWhen (x : expr) (conditions results : list expr)
  : option expr :=
  match case_loop 0 conditions results ([], []) with
  | Some (cases, vars) =>
      Some (setE x (mkExpr ("CASE " ++ String.concat " " cases
                            ++ " ELSE NULL END") vars))
  | None => None
  end.

End CaseWhen.

End FieldExpr.

(** ** cte.go: [cteImpl.Build] and the CTE window builder *)

Module CteBuilder.
Import Clause Field Gorm Window Cte.

(** [cteImpl.Build(builder)] calls [builder.WriteString] only; the builder
    is the text written so far.  [query] is an interface and may be nil. *)
Definition Build (name : string) (query : option SubQuery) (builder : string)
  : string :=
  let builder := builder ++ name in
  let builder := builder ++ " AS (" in
  let builder :=
    match query with
    | Some q => builder ++ ToSQL q
    | None => builder
    end in
  builder ++ ")".

(** [CTEWindowBuilder{do, name, windowFuncs, windowSpecs}]. *)
Record CTEWindowBuilder : Type := mkCTEWindowBuilder
  { bdo : DO;
    bname : string;
    bwindowFuncs : list WindowFunction;
    bwindowSpecs : list WindowSpec }.

(** [func (d *DO) WithWindowCTE(name string) *CTEWindowBuilder]. *)
Definition WithWindowCTE (d : DO) (name : string) : CTEWindowBuilder :=
  {| bdo := d; bname := name; bwindowFuncs := []; bwindowSpecs := [] |}.

Definition BWindow (b : CTEWindowBuilder) (windowFunc : WindowFunction)
  : CTEWindowBuilder :=
  {| bdo := bdo b; bname := bname b;
     bwindowFuncs := (bwindowFuncs b ++ [windowFunc])%list;
     bwindowSpecs := bwindowSpecs b |}.

Definition BPartitionBy (b : CTEWindowBuilder) (columns : list expr)
  : CTEWindowBuilder :=
  {| bdo := bdo b; bname := bname b; bwindowFuncs := bwindowFuncs b;
     bwindowSpecs :=
       edit_last (fun s => {| PartitionBy := columns; OrderBy := OrderBy s;
                              Frame := Frame s |}) (bwindowSpecs b) |}.

Definition BWindowOrderBy (b : CTEWindowBuilder) (columns : list expr)
  : CTEWindowBuilder :=
  {| bdo := bdo b; bname := bname b; bwindowFuncs := bwindowFuncs b;
     bwindowSpecs :=
       edit_last (fun s => {| PartitionBy := PartitionBy s;
                              OrderBy := columns;
                              Frame := Frame s |}) (bwindowSpecs b) |}.

Section As.
(** [field.NewAsterisk("")] and [DO.Select], which live outside the
    repository's sources; the [Dao] that [Select] returns is used as the
    sub-query of the new CTE. *)
Variable asterisk : expr.
Variable DO_Select : DO -> list expr -> SubQuery.

(** The column list [As] hands to [b.do.Select]. *)
Definition As_columns (b : CTEWindowBuilder) : list expr :=
  window_loop 0 (bwindowFuncs b) (bwindowSpecs b) ([] ++ [asterisk])%list.

Definition As (b : CTEWindowBuilder) : cteViewDO :=
  let subQuery := DO_Select (bdo b) (As_columns b) in
  NewWithCTE (bname b) subQuery.

End As.

End CteBuilder.

(** * Properties *)

Import Clause Field Window.

(** ** Observations on SQL text *)

(** Number of positional placeholders of a SQL text. *)
Fixpoint count_placeholders (s : string) : nat :=
  match s with
  | EmptyString => 0
  | String c rest =>
      ((if Ascii.eqb c "?" then 1 else 0) + count_placeholders rest)%nat
  end.

(** Number of positions of [s] at which [needle] starts. *)
Fixpoint occurrences (needle s : string) : nat :=
  ((if prefix needle s then 1 else 0)
   + match s with
     | EmptyString => 0
     | String _ rest => occurrences needle rest
     end)%nat.


(** [a1, a2, ...] written as [sep a1 sep a2 ...]. *)
Fixpoint prefixed (sep : string) (l : list string) : string :=
  match l with
  | [] => ""
  | x :: rest => sep ++ x ++ prefixed sep rest
  end.

(** How one frame bound is written: its kind, after ["? "] when an offset
    is given. *)
Definition render_bound (b : FrameBound) : string :=
  match Offset b with
  | Some _ => "? " ++ bType b
  | None => bType b
  end.

(** What the loops of with.go and cte.go take from a sub-query. *)
Definition with_sql (c : With.WithClause) : string :=
  match Gorm.Statement_ (With.Query c) with
  | Some stmt => Gorm.stmtSQL stmt
  | None => Gorm.ToSQL (With.Query c)
  end.

Definition with_params (c : With.WithClause) : list value :=
  match Gorm.Statement_ (With.Query c) with
  | Some stmt => Gorm.stmtVars stmt
  | None => []
  end.

Definition with_part (c : With.WithClause) : string :=
  With.Name c ++ " AS (" ++ with_sql c ++ ")".

Definition cte_part (c : Cte.cteImpl) : string :=
  Cte.CTEName c ++ " AS (" ++ Gorm.ToSQL (Cte.CTEQuery c) ++ ")".

(** The specification a window function is compiled with at position [i]
    of a view holding [n] functions: the first [n] declared ones, then zero
    values. *)
Definition specs_for (n : nat) (specs : list WindowSpec) : list WindowSpec :=
  (firstn n specs ++ repeat WindowSpec_zero (n - List.length specs))%list.

(** One ["?"] per column, comma separated. *)
Definition placeholders (cols : list expr) : string :=
  String.concat ", " (map (fun _ : expr => "?") cols).

(** The text of the [OVER] clause, part by part. *)
Definition partition_text (spec : WindowSpec) : string :=
  match PartitionBy spec with
  | [] => ""
  | _ :: _ => "PARTITION BY " ++ placeholders (PartitionBy spec)
  end.

Definition order_text (spec : WindowSpec) : string :=
  match OrderBy spec with
  | [] => ""
  | _ :: _ =>
      match PartitionBy spec with [] => "" | _ :: _ => " " end
      ++ "ORDER BY " ++ placeholders (OrderBy spec)
  end.

Definition frame_text (spec : WindowSpec) : string :=
  match Frame spec with
  | Some frame => " " ++ fType frame ++ " " ++ buildFrameClause frame
  | None => ""
  end.

(** The base query of [WithQuery.Select]: the selected columns, or all. *)
Definition select_base (buildExpr4Select :
                          Gorm.DB -> list expr -> string * list value)
    (w : With.WithQuery) (columns : list expr) : string * list value :=
  match columns with
  | [] => ("SELECT *", [])
  | _ :: _ =>
      let r := buildExpr4Select
                 (Gorm.Session (Gorm.db (With.wDO w)) false) columns in
      ("SELECT " ++ fst r, snd r)
  end.

(** The parts [buildSQL] joins with a space. *)
Definition over_parts (o : With.OverClause) : list string :=
  let partition : list string :=
    match With.partitionBy o with
    | [] => []
    | _ :: _ =>
        ["PARTITION BY "
         ++ String.concat ", " (map ColumnName (With.partitionBy o))]
    end in
  let order : list string :=
    match With.orderBy o with
    | [] => []
    | _ :: _ =>
        ["ORDER BY " ++ String.concat ", " (map ColumnName (With.orderBy o))]
    end in
  let frame : list string :=
    match With.frame o with
    | Some f =>
        [if With.End_ f =? "" then With.Type_ f ++ " " ++ With.Start f
         else With.Type_ f ++ " BETWEEN " ++ With.Start f
              ++ " AND " ++ With.End_ f]
    | None => []
    end in
  (partition ++ order ++ frame)%list.

(** ** Values used in the examples *)

Definition salary : expr := NewField "users" "salary".
Definition department : expr := NewField "users" "department".
Definition hire_date : expr := NewField "users" "hire_date".

(** [FrameSpec{Type: FrameRows, Start: {UnboundedPreceding}, End:
    &{CurrentRow}}], the frame of the package's README and tests. *)
Definition frame_running : FrameSpec :=
  {| fType := FrameRows;
     Start := {| bType := UnboundedPreceding; Offset := None |};
     End_ := Some {| bType := CurrentRow; Offset := None |} |}.

(** [FrameSpec{Type: FrameRows, Start: {Preceding, 2}, End:
    &{Following, 2}}]. *)
Definition frame_symmetric : FrameSpec :=
  {| fType := FrameRows;
     Start := {| bType := Preceding; Offset := Some (VInt 2) |};
     End_ := Some {| bType := Following; Offset := Some (VInt 2) |} |}.

(** A sub-query with two bound parameters. *)
Definition q_ranked : Gorm.SubQuery :=
  {| Gorm.underlyingDB := Gorm.Handle "records";
     Gorm.Statement_ :=
       Some {| Gorm.stmtSQL := "SELECT * FROM records WHERE unionid IN (?, ?)";
               Gorm.stmtVars := [VString "u1"; VString "u2"] |};
     Gorm.ToSQL := "SELECT * FROM records WHERE unionid IN ('u1', 'u2')" |}.

Definition q_one : Gorm.SubQuery :=
  {| Gorm.underlyingDB := Gorm.Handle "t";
     Gorm.Statement_ :=
       Some {| Gorm.stmtSQL := "SELECT 1"; Gorm.stmtVars := [] |};
     Gorm.ToSQL := "SELECT 1" |}.

Definition q_two : Gorm.SubQuery :=
  {| Gorm.underlyingDB := Gorm.Handle "t";
     Gorm.Statement_ :=
       Some {| Gorm.stmtSQL := "SELECT 2"; Gorm.stmtVars := [] |};
     Gorm.ToSQL := "SELECT 2" |}.

Definition a_do : Gorm.DO := {| Gorm.db := Gorm.Handle "db" |}.

(** A select-list renderer standing for the external [buildExpr4Select]
    in the examples: column names, no arguments. *)
Definition names_only (_ : Gorm.DB) (columns : list expr)
  : string * list value :=
  (String.concat ", " (map ColumnName columns), []).

(** ** Running a method twice *)

(** Two runs of a method in sequence, the second on the receiver the first
    one left; the two results. *)
Definition twice {S A : Type} (m : S -> A * S) (s : S) : A * A :=
  let '(a1, s1) := m s in
  let '(a2, _) := m s1 in
  (a1, a2).

(** A method that reads its receiver and writes nothing to it. *)
Definition reads {S A : Type} (f : S -> A) : S -> A * S :=
  fun s => (f s, s).

(** [cteViewDO.Select] seen from outside: the column list it builds and
    the last [Raw] call on the [db] it leaves in the receiver. *)
Definition cte_Select_run (columns : list expr) (c : Cte.cteViewDO)
  : (list expr * option (string * list value)) * Cte.cteViewDO :=
  let '(allColumns, c') := Cte.Select_step c columns in
  ((allColumns, Gorm.last_Raw (Gorm.db (Cte.cDO c'))), c').

(** ** Chains of builder calls *)

(** A call on a window view other than [Over] and [Select]. *)
Inductive view_call : Type :=
| CallWindow (windowFunc : WindowFunction)
| CallPartitionBy (columns : list expr)
| CallWindowOrderBy (columns : list expr)
| CallFrame (frameSpec : FrameSpec).

Definition view_apply {DO : Type} (w : windowViewDO DO) (c : view_call)
  : windowViewDO DO :=
  match c with
  | CallWindow f => Window.Window w f
  | CallPartitionBy columns => ViewPartitionBy w columns
  | CallWindowOrderBy columns => WindowOrderBy w columns
  | CallFrame frameSpec => ViewFrame w frameSpec
  end.

(** [w.c1(...).c2(...)...]. *)
Definition view_run {DO : Type} (calls : list view_call)
    (w : windowViewDO DO) : windowViewDO DO :=
  fold_left view_apply calls w.

(** A call on a CTE view other than [Select] and [Find]. *)
Inductive cte_call : Type :=
| CteWithCTE (name : string) (query : Gorm.SubQuery)
| CteFromCTE (cteName : string)
| CteWindow (windowFunc : WindowFunction)
| CtePartitionBy (columns : list expr)
| CteWindowOrderBy (columns : list expr)
| CteFrame (frameSpec : FrameSpec).

Definition cte_apply (c : Cte.cteViewDO) (call : cte_call) : Cte.cteViewDO :=
  match call with
  | CteWithCTE name query => Cte.WithCTE c name query
  | CteFromCTE cteName => Cte.FromCTE c cteName
  | CteWindow f => Cte.Window c f
  | CtePartitionBy columns => Cte.CtePartitionBy c columns
  | CteWindowOrderBy columns => Cte.CteWindowOrderBy c columns
  | CteFrame frameSpec => Cte.CteFrame c frameSpec
  end.

Definition cte_run (calls : list cte_call) (c : Cte.cteViewDO)
  : Cte.cteViewDO :=
  fold_left cte_apply calls c.

(** The CTEs a chain of calls declares, and the name its last [FromCTE]
    gives ([dflt] when there is none). *)
Definition declared_ctes (calls : list cte_call) : list Cte.cteImpl :=
  flat_map (fun call => match call with
                        | CteWithCTE name query => [Cte.mkCte name query]
                        | _ => []
                        end) calls.

Definition last_from (dflt : string) (calls : list cte_call) : string :=
  fold_left (fun acc call => match call with
                             | CteFromCTE cteName => cteName
                             | _ => acc
                             end) calls dflt.

(** The frame part of [WindowFunction.Over] of the field package. *)
Definition over_frame_text (spec : WindowSpec) : string :=
  match Frame spec with
  | Some frame =>
      " " ++ fType frame ++ " "
      ++ (if (bType (Start frame) =? UnboundedPreceding)
             && match End_ frame with
                | Some fin => bType fin =? CurrentRow
                | None => false
                end
          then "UNBOUNDED PRECEDING AND CURRENT ROW" else "")
  | None => ""
  end.

(** Number of bounds of a frame that carry an offset. *)
Definition offsets_given (frame : FrameSpec) : nat :=
  (match Offset (Start frame) with Some _ => 1 | None => 0 end
   + match End_ frame with
     | Some fin => match Offset fin with Some _ => 1 | None => 0 end
     | None => 0
     end)%nat.

(** A window function of the field package is aligned when its name is the
    text of its expression and that text holds as many placeholders as the
    expression has variables. *)
Definition aligned (wf : WindowFunction) : Prop :=
  match e (wexpr wf) with
  | Some ex =>
      SQL ex = funcName wf
      /\ count_placeholders (SQL ex) = List.length (Vars ex)
  | None => False
  end.

(** Which options of [BuildColumn] a list holds. *)
Definition has_table (opts : list BuildOpt) : bool :=
  existsb (fun o => match o with
                    | WithTable | WithAll => true
                    | WithoutQuote => false
                    end) opts.

Definition has_all (opts : list BuildOpt) : bool :=
  existsb (fun o => match o with WithAll => true | _ => false end) opts.

Definition has_noquote (opts : list BuildOpt) : bool :=
  existsb (fun o => match o with WithoutQuote => true | _ => false end) opts.

(** A JSON path element between single quotes. *)
Definition quoted (path : string) : string := "'" ++ path ++ "'".

(** One branch of [CaseWhen], and the two variables it collects. *)
Definition when_text (Sprint : value -> string) (p : expr * expr) : string :=
  "WHEN " ++ Sprint (RawExpr (fst p)) ++ " THEN " ++ Sprint (RawExpr (snd p)).

Definition pair_vars (p : expr * expr) : list value :=
  [RawExpr (fst p); RawExpr (snd p)].

(** The argument parameters of a window function of the field package:
    the variables of its own expression. *)
Definition argument_parameters (wf : WindowFunction) : list value :=
  match e (wexpr wf) with
  | Some ex => Vars ex
  | None => []
  end.

(** ** Strings *)

Lemma append_assoc (a b c : string) : (a ++ b) ++ c = a ++ (b ++ c).
Proof. induction a as [|x a IH]; simpl; [reflexivity | now rewrite IH]. Qed.

Lemma append_nil_r (a : string) : a ++ "" = a.
Proof. induction a as [|x a IH]; simpl; [reflexivity | now rewrite IH]. Qed.

(** Reassociate to the right and run the appends of literals. *)
Ltac string_norm :=
  repeat first [ rewrite append_assoc | progress cbn [append] ].

Lemma length_append (a b : string) :
  String.length (a ++ b) = (String.length a + String.length b)%nat.
Proof. induction a as [|x a IH]; simpl; [reflexivity | now rewrite IH]. Qed.

Lemma substring_0_0 (s : string) : substring 0 0 s = "".
Proof. destruct s; reflexivity. Qed.

Lemma substring_prefix (a b : string) :
  substring 0 (String.length a) (a ++ b) = a.
Proof.
  induction a as [|x a IH]; simpl.
  - apply substring_0_0.
  - now rewrite IH.
Qed.

(** Go's [r[:len(r)-len(t)]] on [r = a + t] is [a]. *)
Lemma cut_suffix (a t : string) :
  substring 0 (String.length (a ++ t) - String.length t) (a ++ t) = a.
Proof.
  rewrite length_append, Nat.add_sub. apply substring_prefix.
Qed.

Lemma count_placeholders_append (a b : string) :
  count_placeholders (a ++ b)
  = (count_placeholders a + count_placeholders b)%nat.
Proof.
  induction a as [|x a IH]; simpl; [reflexivity | rewrite IH; lia].
Qed.

Lemma concat_cons (sep x : string) (l : list string) :
  String.concat sep (x :: l) = x ++ prefixed sep l.
Proof.
  revert x; induction l as [|y l IH]; intros x.
  - simpl. now rewrite append_nil_r.
  - change (String.concat sep (x :: y :: l))
      with (x ++ sep ++ String.concat sep (y :: l)).
    now rewrite IH.
Qed.

Lemma count_placeholders_prefixed (sep : string) (l : list string) :
  count_placeholders (prefixed sep l)
  = (List.length l * count_placeholders sep
     + list_sum (map count_placeholders l))%nat.
Proof.
  induction l as [|x l IH]; simpl; [reflexivity|].
  rewrite !count_placeholders_append, IH. lia.
Qed.

(** ** The frame clause *)

(** [buildFrameClause] written bound by bound. *)
Lemma buildFrameClause_render (frame : FrameSpec) :
  buildFrameClause frame
  = render_bound (Start frame)
    ++ match End_ frame with
       | Some fin => " AND " ++ render_bound fin
       | None => ""
       end.
Proof.
  unfold buildFrameClause, render_bound.
  destruct (End_ frame) as [fin|].
  - destruct (Offset fin).
    + set (r := match Offset (Start frame) with
                | Some _ => "? " ++ bType (Start frame)
                | None => bType (Start frame)
                end).
      rewrite <- (append_assoc r " AND " (bType fin)).
      rewrite cut_suffix.
      now rewrite append_assoc.
    + reflexivity.
  - now rewrite append_nil_r.
Qed.

(** ** The column loops *)

Lemma columns_loop_succ (i : nat) (cols : list expr)
    (overClause : string) (vars : list value) :
  columns_loop (S i) cols (overClause, vars)
  = (overClause ++ prefixed ", " (map (fun _ => "?") cols),
     (vars ++ map RawExpr cols)%list).
Proof.
  revert i overClause vars.
  induction cols as [|c cols IH]; intros i overClause vars; simpl.
  - now rewrite append_nil_r, app_nil_r.
  - rewrite IH. f_equal.
    + now rewrite !append_assoc.
    + now rewrite <- app_assoc.
Qed.

Lemma columns_loop_0 (c : expr) (cols : list expr)
    (overClause : string) (vars : list value) :
  columns_loop 0 (c :: cols) (overClause, vars)
  = (overClause ++ String.concat ", " (map (fun _ => "?") (c :: cols)),
     (vars ++ map RawExpr (c :: cols))%list).
Proof.
  cbn [columns_loop Nat.ltb Nat.leb map].
  rewrite columns_loop_succ, concat_cons. f_equal.
  - now rewrite append_assoc.
  - now rewrite <- app_assoc.
Qed.

(** ** The window expression *)

Lemma buildOverClause_parts (spec : WindowSpec) :
  buildOverClause spec
  = (" OVER (" ++ partition_text spec ++ order_text spec
     ++ frame_text spec ++ ")",
     (map RawExpr (PartitionBy spec) ++ map RawExpr (OrderBy spec))%list).
Proof.
  unfold buildOverClause, partition_text, order_text, frame_text, placeholders.
  destruct spec as [P O F]; cbn [PartitionBy OrderBy Frame].
  destruct P as [|p P], O as [|o O], F as [f|];
    cbn [List.length Nat.ltb Nat.leb fst snd];
    rewrite ?columns_loop_0; cbn [fst snd app];
    rewrite ?app_nil_r;
    f_equal; rewrite ?append_assoc; cbn [append];
    rewrite ?append_assoc; reflexivity.
Qed.

Lemma buildWindowExpression_parts (wf : WindowFunction) (spec : WindowSpec) :
  buildWindowExpression wf spec
  = mkExpr
      (WindowFuncName wf ++ " OVER (" ++ partition_text spec
       ++ order_text spec ++ frame_text spec ++ ")")
      (WRawExpr wf
       :: map RawExpr (PartitionBy spec) ++ map RawExpr (OrderBy spec)).
Proof.
  unfold buildWindowExpression. now rewrite buildOverClause_parts.
Qed.

Lemma count_placeholders_placeholders (cols : list expr) :
  count_placeholders (placeholders cols) = List.length cols.
Proof.
  unfold placeholders. destruct cols as [|c cols]; [reflexivity|].
  cbn [map]. rewrite concat_cons, count_placeholders_append,
    count_placeholders_prefixed, length_map.
  assert (H : forall l : list expr,
             list_sum (map count_placeholders (map (fun _ : expr => "?") l))
             = List.length l).
  { induction l as [|x l IH]; simpl; [reflexivity | now rewrite IH]. }
  rewrite H. simpl. lia.
Qed.

Lemma count_placeholders_render_bound (b : FrameBound) :
  count_placeholders (render_bound b)
  = (match Offset b with Some _ => 1 | None => 0 end
     + count_placeholders (bType b))%nat.
Proof. unfold render_bound. destruct (Offset b); reflexivity. Qed.

(** Placeholders written against variables collected.  The text holds the
    placeholders of the function name, one per column and those of the
    frame; the variables are the function's [RawExpr()] and one per
    column. *)
Lemma buildWindowExpression_counts (wf : WindowFunction) (spec : WindowSpec) :
  count_placeholders (SQL (buildWindowExpression wf spec))
  = (count_placeholders (WindowFuncName wf)
     + List.length (PartitionBy spec) + List.length (OrderBy spec)
     + match Frame spec with
       | Some frame =>
           count_placeholders (fType frame)
           + count_placeholders (buildFrameClause frame)
       | None => 0
       end)%nat
  /\ List.length (Vars (buildWindowExpression wf spec))
     = (1 + List.length (PartitionBy spec) + List.length (OrderBy spec))%nat.
Proof.
  rewrite buildWindowExpression_parts. cbn [SQL Vars]. split.
  - rewrite !count_placeholders_append.
    assert (HP : count_placeholders (partition_text spec)
                 = List.length (PartitionBy spec)).
    { unfold partition_text. destruct (PartitionBy spec) eqn:E;
        [reflexivity|].
      rewrite count_placeholders_append, count_placeholders_placeholders.
      reflexivity. }
    assert (HO : count_placeholders (order_text spec)
                 = List.length (OrderBy spec)).
    { unfold order_text. destruct (OrderBy spec) eqn:E; [reflexivity|].
      rewrite !count_placeholders_append, count_placeholders_placeholders.
      destruct (PartitionBy spec); reflexivity. }
    assert (HF : count_placeholders (frame_text spec)
                 = match Frame spec with
                   | Some frame =>
                       (count_placeholders (fType frame)
                        + count_placeholders (buildFrameClause frame))%nat
                   | None => 0%nat
                   end).
    { unfold frame_text. destruct (Frame spec); [|reflexivity].
      rewrite !count_placeholders_append. simpl. lia. }
    rewrite HP, HO, HF. simpl. lia.
  - cbn [List.length]. rewrite length_app, !length_map. lia.
Qed.

(** ** The window loop of the views *)

Lemma skipn_cons_inv {A : Type} (d : A) (i : nat) (l : list A) (x : A)
    (t : list A) :
  skipn i l = x :: t ->
  nth i l d = x /\ skipn (S i) l = t /\ (i < List.length l)%nat.
Proof.
  revert l; induction i as [|i IH]; intros l E.
  - destruct l; simpl in E; [discriminate|]. injection E as -> ->.
    simpl. repeat split. lia.
  - destruct l as [|y l]; simpl in E; [discriminate|].
    destruct (IH l E) as (H1 & H2 & H3). simpl. repeat split; auto. lia.
Qed.

Lemma specs_for_nil (n : nat) :
  specs_for n [] = repeat WindowSpec_zero n.
Proof. unfold specs_for. now rewrite firstn_nil, Nat.sub_0_r. Qed.

Lemma window_loop_combine (i : nat) (funcs : list WindowFunction)
    (specs : list WindowSpec) (allColumns : list expr) :
  window_loop i funcs specs allColumns
  = (allColumns
     ++ map (fun p => NewExpr (buildWindowExpression (fst p) (snd p)))
          (combine funcs (specs_for (List.length funcs) (skipn i specs))))%list.
Proof.
  revert i allColumns.
  induction funcs as [|f funcs IH]; intros i allColumns.
  - simpl. now rewrite app_nil_r.
  - cbn [window_loop]. rewrite IH, <- app_assoc. f_equal.
    destruct (skipn i specs) as [|x t] eqn:E.
    + assert (Hlen : (List.length specs <= i)%nat).
      { pose proof (length_skipn i specs) as H. rewrite E in H.
        simpl in H. lia. }
      rewrite (skipn_all2 specs) by lia.
      rewrite !specs_for_nil.
      destruct (Nat.ltb_spec i (List.length specs)); [lia|].
      reflexivity.
    + destruct (skipn_cons_inv WindowSpec_zero i specs x t E)
        as (Hn & Hs & Hlt).
      rewrite Hs, Hn.
      destruct (Nat.ltb_spec i (List.length specs)); [|lia].
      reflexivity.
Qed.

(** ** The WITH loops *)

Lemma with_loop_parts (clauses : list With.WithClause)
    (withParts : list string) (allArgs : list value) :
  With.with_loop clauses (withParts, allArgs)
  = ((withParts ++ map with_part clauses)%list,
     (allArgs ++ flat_map with_params clauses)%list).
Proof.
  revert withParts allArgs.
  induction clauses as [|c clauses IH]; intros withParts allArgs.
  - simpl. now rewrite !app_nil_r.
  - cbn [With.with_loop map flat_map].
    unfold with_part at 1, with_params at 1, with_sql.
    destruct (Gorm.Statement_ (With.Query c)) as [stmt|];
      rewrite IH, <- !app_assoc; reflexivity.
Qed.

Lemma Select_Raw_parts
    (buildExpr4Select : Gorm.DB -> list expr -> string * list value)
    (w : With.WithQuery) (columns : list expr) :
  With.Select_Raw buildExpr4Select w columns
  = ("WITH " ++ String.concat ", " (map with_part (With.withClauses w))
     ++ " " ++ fst (select_base buildExpr4Select w columns),
     (flat_map with_params (With.withClauses w)
      ++ snd (select_base buildExpr4Select w columns))%list).
Proof.
  unfold With.Select_Raw, select_base.
  rewrite with_loop_parts. cbn [app].
  destruct columns as [|c columns]; cbn [List.length Nat.ltb Nat.leb fst snd].
  - rewrite app_nil_r. f_equal; rewrite ?append_assoc; reflexivity.
  - destruct (buildExpr4Select _ _) as [selectSQL selectArgs].
    cbn [fst snd]. f_equal; rewrite ?append_assoc; reflexivity.
Qed.

Lemma cte_loop_succ (i : nat) (l : list Cte.cteImpl) (cteSQL : string) :
  Cte.cte_loop (S i) l cteSQL = cteSQL ++ prefixed ", " (map cte_part l).
Proof.
  revert i cteSQL; induction l as [|c l IH]; intros i cteSQL; simpl.
  - now rewrite append_nil_r.
  - rewrite IH. unfold cte_part. string_norm. reflexivity.
Qed.

Lemma buildCTEQuery_parts (c : Cte.cteViewDO) (d : Gorm.DB) :
  Cte.buildCTEQuery c d
  = match Cte.ctes c with
    | [] => d
    | _ :: _ =>
        Gorm.Raw d
          ("WITH " ++ String.concat ", " (map cte_part (Cte.ctes c))
           ++ " SELECT * FROM " ++ Cte.fromCTE c) []
    end.
Proof.
  unfold Cte.buildCTEQuery.
  destruct (Cte.ctes c) as [|x l]; [reflexivity|].
  cbn [List.length Nat.eqb Cte.cte_loop Nat.ltb Nat.leb map].
  rewrite cte_loop_succ, concat_cons.
  f_equal; unfold cte_part; string_norm; reflexivity.
Qed.

(** ** The string based window function of with.go *)

Lemma names_loop_map (exprs : list expr) (names : list string) :
  With.names_loop exprs names = (names ++ map ColumnName exprs)%list.
Proof.
  revert names; induction exprs as [|x exprs IH]; intros names; simpl.
  - now rewrite app_nil_r.
  - rewrite IH, <- app_assoc. reflexivity.
Qed.

Lemma buildSQL_parts (w : With.WindowFunction) :
  With.buildSQL w
  = With.Function w ++ " OVER ("
    ++ match With.overClause w with
       | Some o => String.concat " " (over_parts o)
       | None => ""
       end
    ++ ")".
Proof.
  unfold With.buildSQL, over_parts.
  destruct (With.overClause w) as [o|]; [|now rewrite append_assoc].
  rewrite !names_loop_map. cbn [app].
  rewrite !append_assoc. do 3 f_equal.
  destruct (With.partitionBy o), (With.orderBy o), (With.frame o) as [f|];
    cbn [List.length Nat.ltb Nat.leb app];
    try destruct (With.End_ f =? ""); reflexivity.
Qed.

(** ** The CTE compilers *)


(** [buildCTEQuery] never returns a parameter, whatever the CTEs hold. *)
Lemma buildCTEQuery_no_parameters (c : Cte.cteViewDO) (d : Gorm.DB)
    (sql : string) (values : list value) :
  Cte.ctes c <> [] ->
  Gorm.last_Raw (Cte.buildCTEQuery c d) = Some (sql, values) ->
  values = [].
Proof.
  intros Hne. rewrite buildCTEQuery_parts.
  destruct (Cte.ctes c); [contradiction|].
  simpl. now intros [= _ <-].
Qed.

Example buildCTEQuery_no_parameters_ranked :
  forall sql values,
    Gorm.last_Raw
      (Cte.buildCTEQuery (Cte.NewWithCTE "ranked" q_ranked) (Gorm.Handle "db"))
    = Some (sql, values) ->
    values = [].
Proof.
  intros sql values.
  apply (buildCTEQuery_no_parameters (Cte.NewWithCTE "ranked" q_ranked)).
  discriminate.
Qed.

(** [WithQuery.Select] follows the shape
    [WITH n1 AS (sql1), n2 AS (sql2), ... <base>], with the parameters of
    the CTEs in declaration order before those of the base query. *)
Lemma WithQuery_Select_shape
    (buildExpr4Select : Gorm.DB -> list expr -> string * list value)
    (w : With.WithQuery) (columns : list expr) :
  With.Select_Raw buildExpr4Select w columns
  = ("WITH " ++ String.concat ", " (map with_part (With.withClauses w))
     ++ " " ++ fst (select_base buildExpr4Select w columns),
     (flat_map with_params (With.withClauses w)
      ++ snd (select_base buildExpr4Select w columns))%list).
Proof. apply Select_Raw_parts. Qed.

(** C5 (counterexample).  Two CTEs named ["x"]: both compilers return a
    statement that lists both, and report nothing. *)
Lemma duplicate_cte_names_compile :
  let w := With.With (With.DO_With a_do "x" q_one) "x" q_two in
  let c := Cte.FromCTE (Cte.WithCTE (Cte.NewWithCTE "x" q_one) "x" q_two) "x" in
  ~ NoDup (map With.Name (With.withClauses w))
  /\ With.Select_Raw names_only w []
     = ("WITH x AS (SELECT 1), x AS (SELECT 2) SELECT *", [])
  /\ Gorm.last_Raw (Cte.buildCTEQuery c (Gorm.db (Cte.cDO c)))
     = Some ("WITH x AS (SELECT 1), x AS (SELECT 2) SELECT * FROM x", []).
Proof.
  repeat split. intros H. inversion H as [|? ? Hin _]. apply Hin. now left.
Qed.

(** C5 (amended).  [With] and [WithCTE] append the new entry without
    looking at the names already present, and the compiled WITH list holds
    every entry, the new one last, whether or not its name is already
    there. *)
Theorem with_appends_without_name_check
    (buildExpr4Select : Gorm.DB -> list expr -> string * list value)
    (w : With.WithQuery) (c : Cte.cteViewDO) (name : string)
    (query : Gorm.SubQuery) (columns : list expr) (d : Gorm.DB) :
  With.withClauses (With.With w name query)
  = (With.withClauses w ++ [With.mkWithClause name query])%list
  /\ fst (With.Select_Raw buildExpr4Select (With.With w name query) columns)
     = "WITH "
       ++ String.concat ", "
            (map with_part (With.withClauses w)
             ++ [with_part (With.mkWithClause name query)])%list
       ++ " " ++ fst (select_base buildExpr4Select w columns)
  /\ Cte.ctes (Cte.WithCTE c name query)
     = (Cte.ctes c ++ [Cte.mkCte name query])%list
  /\ Cte.buildCTEQuery (Cte.WithCTE c name query) d
     = Gorm.Raw d
         ("WITH "
          ++ String.concat ", "
               (map cte_part (Cte.ctes c)
                ++ [cte_part (Cte.mkCte name query)])%list
          ++ " SELECT * FROM " ++ Cte.fromCTE c) [].
Proof.
  repeat split.
  - rewrite Select_Raw_parts. cbn [fst With.With With.withClauses].
    rewrite map_app. reflexivity.
  - rewrite buildCTEQuery_parts. cbn [Cte.WithCTE Cte.ctes Cte.fromCTE].
    rewrite map_app.
    destruct (Cte.ctes c ++ [Cte.mkCte name query])%list eqn:E.
    + now destruct (Cte.ctes c).
    + reflexivity.
Qed.

(** ** The window expression compiler *)

(** C2 (evaluation at the failing inputs).  [ROW_NUMBER()] over the zero
    specification: no placeholder in the text, one variable collected.
    The same function over a frame with two offsets: two placeholders, and
    the only variable is the function's own expression, so neither offset
    is bound.  [LAG(?, ?, ?)] over one partition and one order column:
    five placeholders, three variables, from [buildWindowExpression] and
    from [WindowFunction.Over] alike. *)
Theorem buildWindowExpression_placeholder_mismatch :
  (let r := buildWindowExpression RowNumberFunc WindowSpec_zero in
   SQL r = "ROW_NUMBER() OVER ()"
   /\ count_placeholders (SQL r) = 0%nat
   /\ Vars r = [VExpr (mkExpr "ROW_NUMBER()" [])])
  /\ (let r := buildWindowExpression RowNumberFunc
                 {| PartitionBy := []; OrderBy := [];
                    Frame := Some frame_symmetric |} in
      SQL r = "ROW_NUMBER() OVER ( ROWS ? PRECEDING AND ? FOLLOWING)"
      /\ count_placeholders (SQL r) = 2%nat
      /\ Vars r = [VExpr (mkExpr "ROW_NUMBER()" [])])
  /\ (let r := buildWindowExpression (Lag salary 1 [VInt 0])
                 {| PartitionBy := [department]; OrderBy := [hire_date];
                    Frame := None |} in
      SQL r = "LAG(?, ?, ?) OVER (PARTITION BY ? ORDER BY ?)"
      /\ count_placeholders (SQL r) = 5%nat
      /\ List.length (Vars r) = 3%nat)
  /\ (let r := FieldWindow.Over (Lag salary 1 [VInt 0])
                 {| PartitionBy := [department]; OrderBy := [hire_date];
                    Frame := None |} in
      funcName r = "LAG(?, ?, ?) OVER (PARTITION BY ? ORDER BY ?)"
      /\ List.length (match e (wexpr r) with
                       | Some x => Vars x
                       | None => []
                       end) = 3%nat).
Proof. repeat split. Qed.

(** The counts agree exactly when the function name and the frame hold one
    placeholder between them. *)
Lemma buildWindowExpression_aligned_iff (wf : WindowFunction)
    (spec : WindowSpec) :
  count_placeholders (SQL (buildWindowExpression wf spec))
  = List.length (Vars (buildWindowExpression wf spec))
  <-> (count_placeholders (WindowFuncName wf)
       + match Frame spec with
         | Some frame =>
             count_placeholders (fType frame)
             + count_placeholders (buildFrameClause frame)
         | None => 0
         end = 1)%nat.
Proof.
  destruct (buildWindowExpression_counts wf spec) as [-> ->]. lia.
Qed.

(** C3 (evaluation at the failing input).  The frame of the README,
    [UNBOUNDED PRECEDING] to [CURRENT ROW], and the symmetric frame of two
    rows: [buildFrameClause] joins the two bounds with [AND] and the
    window expression puts the unit before them; the keyword [BETWEEN] is
    written nowhere.  [buildSQL] of with.go writes it. *)
Theorem buildFrameClause_omits_BETWEEN :
  buildFrameClause frame_running = "UNBOUNDED PRECEDING AND CURRENT ROW"
  /\ SQL (buildWindowExpression (WindowSum salary)
            {| PartitionBy := [department]; OrderBy := [hire_date];
               Frame := Some frame_running |})
     = "SUM(?) OVER (PARTITION BY ? ORDER BY ? ROWS UNBOUNDED PRECEDING AND CURRENT ROW)"
  /\ buildFrameClause frame_symmetric = "? PRECEDING AND ? FOLLOWING"
  /\ SQL (buildWindowExpression (WindowSum salary)
            {| PartitionBy := []; OrderBy := [];
               Frame := Some frame_symmetric |})
     = "SUM(?) OVER ( ROWS ? PRECEDING AND ? FOLLOWING)"
  /\ occurrences "BETWEEN"
       (SQL (buildWindowExpression (WindowSum salary)
               {| PartitionBy := []; OrderBy := [];
                  Frame := Some frame_symmetric |})) = 0%nat
  /\ With.buildSQL
       (With.over_set (With.Rows "2 PRECEDING" "2 FOLLOWING")
          (With.Over (With.Sum salary)))
     = "SUM(salary) OVER (ROWS BETWEEN 2 PRECEDING AND 2 FOLLOWING)".
Proof. repeat split. Qed.

(** The five bound kinds the package declares. *)
Lemma declared_kind_cases (k : FrameBoundType) :
  In k [UnboundedPreceding; Preceding; CurrentRow; Following;
        UnboundedFollowing] ->
  k = UnboundedPreceding \/ k = Preceding \/ k = CurrentRow
  \/ k = Following \/ k = UnboundedFollowing.
Proof. simpl. intuition auto. Qed.

(** Over the declared kinds [buildFrameClause] writes no [BETWEEN], with
    one bound or with two. *)
Lemma buildFrameClause_never_BETWEEN (frame : FrameSpec) :
  In (bType (Start frame))
    [UnboundedPreceding; Preceding; CurrentRow; Following;
     UnboundedFollowing] ->
  match End_ frame with
  | Some fin =>
      In (bType fin)
        [UnboundedPreceding; Preceding; CurrentRow; Following;
         UnboundedFollowing]
  | None => True
  end ->
  occurrences "BETWEEN" (buildFrameClause frame) = 0%nat.
Proof.
  intros Hs He. rewrite buildFrameClause_render. unfold render_bound.
  destruct frame as [t [ks os] fin]; cbn [Start End_ bType Offset] in *.
  apply declared_kind_cases in Hs.
  destruct fin as [[ke oe]|]; cbn [bType Offset] in *.
  - apply declared_kind_cases in He.
    destruct Hs as [-> | [-> | [-> | [-> | ->]]]];
      destruct He as [-> | [-> | [-> | [-> | ->]]]];
      destruct os, oe; reflexivity.
  - destruct Hs as [-> | [-> | [-> | [-> | ->]]]]; destruct os; reflexivity.
Qed.

Example buildFrameClause_never_BETWEEN_running :
  occurrences "BETWEEN" (buildFrameClause frame_running) = 0%nat.
Proof.
  apply buildFrameClause_never_BETWEEN; simpl; auto.
Qed.

(** Over the zero specification every compiler returns
    [<FUNC> OVER ()]: the [OVER] clause is [ OVER ()] and collects no
    variable, so [buildWindowExpression] returns the function's own
    expression as the only variable, [WindowFunction.Over] of the field
    package likewise, and [buildSQL] of with.go returns the text for a
    window function whose [Over()] was never called or was called and left
    empty. *)
Theorem zero_spec_compiles_to_empty_over (wf : WindowFunction) (fn : string) :
  buildOverClause WindowSpec_zero = (" OVER ()", [])
  /\ buildWindowExpression wf WindowSpec_zero
     = mkExpr (WindowFuncName wf ++ " OVER ()") [WRawExpr wf]
  /\ FieldWindow.Over wf WindowSpec_zero
     = {| wexpr := setE (wexpr wf)
                     (mkExpr (funcName wf ++ " OVER ()") [WRawExpr wf]);
          funcName := funcName wf ++ " OVER ()" |}
  /\ With.buildSQL {| With.Function := fn; With.overClause := None |}
     = fn ++ " OVER ()"
  /\ With.buildSQL {| With.Function := fn;
                      With.overClause := Some With.OverClause_zero |}
     = fn ++ " OVER ()".
Proof.
  repeat split.
  - unfold With.buildSQL. cbn. now rewrite append_assoc.
  - unfold With.buildSQL. cbn. now rewrite !append_assoc.
Qed.

(** C4 (evaluation at the failing inputs).  Over the zero specification
    the text is [<FUNC> OVER ()] and the [OVER] clause collects nothing,
    but the parameters returned are not the function's argument
    parameters: [ROW_NUMBER()] has no argument and the result holds one
    parameter, the function's whole expression; [LAG(?, ?, ?)] has three
    arguments and the result holds that one expression in their place. *)
Theorem zero_spec_returns_the_function_expression :
  snd (buildOverClause WindowSpec_zero) = []
  /\ (let r := buildWindowExpression RowNumberFunc WindowSpec_zero in
      SQL r = "ROW_NUMBER() OVER ()"
      /\ argument_parameters RowNumberFunc = []
      /\ Vars r = [VExpr (mkExpr "ROW_NUMBER()" [])])
  /\ (let r := buildWindowExpression (Lag salary 1 [VInt 0])
                 WindowSpec_zero in
      SQL r = "LAG(?, ?, ?) OVER ()"
      /\ argument_parameters (Lag salary 1 [VInt 0])
         = [RawExpr salary; VInt 1; VInt 0]
      /\ Vars r
         = [VExpr (mkExpr "LAG(?, ?, ?)" [RawExpr salary; VInt 1; VInt 0])]).
Proof. repeat split. Qed.



(** C7 (counterexample).  [PRECEDING] and [FOLLOWING] without an offset,
    and [CURRENT ROW] and the unbounded kinds with one: every frame
    renders to a string. *)
Lemma frame_offsets_not_validated :
  buildFrameClause
    {| fType := FrameRows;
       Start := {| bType := Preceding; Offset := None |};
       End_ := Some {| bType := Following; Offset := None |} |}
  = "PRECEDING AND FOLLOWING"
  /\ buildFrameClause
       {| fType := FrameRows;
          Start := {| bType := CurrentRow; Offset := Some (VInt 1) |};
          End_ := None |}
     = "? CURRENT ROW"
  /\ buildFrameClause
       {| fType := FrameRange;
          Start := {| bType := UnboundedPreceding; Offset := Some (VInt 3) |};
          End_ := Some {| bType := UnboundedFollowing;
                          Offset := Some (VInt 3) |} |}
     = "? UNBOUNDED PRECEDING AND ? UNBOUNDED FOLLOWING".
Proof. repeat split. Qed.

(** C7 (amended).  [buildFrameClause] accepts every combination of kind
    and offset: a bound renders as its kind, after ["? "] when an offset is
    given and alone when none is, and two bounds are joined by [ AND ]. *)
Theorem buildFrameClause_renders_every_bound (frame : FrameSpec)
    (kind : FrameBoundType) (offset : value) :
  buildFrameClause frame
  = render_bound (Start frame)
    ++ match End_ frame with
       | Some fin => " AND " ++ render_bound fin
       | None => ""
       end
  /\ render_bound {| bType := kind; Offset := None |} = kind
  /\ render_bound {| bType := kind; Offset := Some offset |} = "? " ++ kind.
Proof.
  split; [|split; reflexivity].
  apply buildFrameClause_render.
Qed.


(** A repeated column: [a, b, a] stays [a, b, a]. *)
Example repeated_columns_stay :
  With.buildSQL
    (With.over_set (With.OrderBy [hire_date; hire_date])
       (With.over_set (With.PartitionBy [salary; department; salary])
          (With.Over With.RowNumber)))
  = "ROW_NUMBER() OVER (PARTITION BY salary, department, salary ORDER BY hire_date, hire_date)"
  /\ buildWindowExpression RowNumberFunc
       {| PartitionBy := [salary; department; salary];
          OrderBy := [hire_date; hire_date]; Frame := None |}
     = mkExpr "ROW_NUMBER() OVER (PARTITION BY ?, ?, ? ORDER BY ?, ?)"
         (VExpr (mkExpr "ROW_NUMBER()" [])
          :: map RawExpr [salary; department; salary; hire_date; hire_date]).
Proof. split; reflexivity. Qed.

(** ** Running a compiler twice *)

(** C9.  Compiling the same specification twice gives the same SQL text
    and the same parameters.  [WithQuery.Select], [buildSQL],
    [buildWindowExpression] and [windowViewDO.Select] read their receiver
    and arguments and write nothing; [cteViewDO.Select] assigns [c.db], and
    run again on the receiver it left it builds the same column list and
    hands [Raw] the same text and the same values. *)
Theorem compiling_twice_is_identical {DO : Type}
    (buildExpr4Select : Gorm.DB -> list expr -> string * list value)
    (columns : list expr) (w : With.WithQuery) (fn : With.WindowFunction)
    (wf : WindowFunction) (spec : WindowSpec) (v : windowViewDO DO)
    (c : Cte.cteViewDO) :
  let same {A : Type} (r : A * A) := fst r = snd r in
  same (twice (reads (fun w => With.Select_Raw buildExpr4Select w columns)) w)
  /\ same (twice (reads With.buildSQL) fn)
  /\ same (twice (reads (fun a => buildWindowExpression (fst a) (snd a)))
             (wf, spec))
  /\ same (twice (reads (fun v => Select_columns v columns)) v)
  /\ same (twice (cte_Select_run columns) c).
Proof.
  cbv zeta. repeat split.
  unfold twice, cte_Select_run, Cte.Select_step.
  destruct (Cte.ctes c) as [|x l] eqn:E.
  - cbn [List.length Nat.ltb Nat.leb]. rewrite E.
    cbn [List.length Nat.ltb Nat.leb fst snd]. reflexivity.
  - cbn [List.length Nat.ltb Nat.leb Cte.set_db Cte.ctes Cte.windowFuncs
           Cte.windowSpecs Cte.fromCTE Cte.cDO Gorm.db].
    rewrite E. cbn [List.length Nat.ltb Nat.leb Cte.set_db Cte.ctes
                      Cte.windowFuncs Cte.windowSpecs Cte.fromCTE Cte.cDO
                      Gorm.db fst snd].
    rewrite !buildCTEQuery_parts.
    cbn [Cte.set_db Cte.ctes Cte.fromCTE]. rewrite E.
    reflexivity.
Qed.

(** Two runs on the CTE view of [ranked] give the same text. *)
Example compiling_twice_example :
  twice (cte_Select_run [salary])
    (Cte.Window (Cte.FromCTE (Cte.NewWithCTE "ranked" q_ranked) "ranked")
       RankFunc)
  = (let r :=
       ([salary; NewExpr (mkExpr "RANK() OVER ()" [VExpr (mkExpr "RANK()" [])])],
        Some ("WITH ranked AS (SELECT * FROM records WHERE unionid IN ('u1', 'u2')) SELECT * FROM ranked",
              @nil value)) in
     (r, r)).
Proof. reflexivity. Qed.

(** ** The views *)

(** C10.  [Select] of a window view returns the selected columns followed
    by one window expression per window function, in declaration order;
    the [i]-th function is compiled with the [i]-th specification, or with
    the zero specification when there is none, and the specifications past
    the last function are not read.  [Select] of the CTE view builds the
    same list. *)
Theorem Select_pairs_functions_with_specs {DO : Type}
    (w : windowViewDO DO) (c : Cte.cteViewDO) (columns : list expr)
    (f : WindowFunction) :
  Select_columns w columns
  = (columns
     ++ map (fun p => NewExpr (buildWindowExpression (fst p) (snd p)))
          (combine (windowFuncs w)
             (firstn (List.length (windowFuncs w)) (windowSpecs w)
              ++ repeat WindowSpec_zero
                   (List.length (windowFuncs w)
                    - List.length (windowSpecs w)))))%list
  /\ fst (Cte.Select_step c columns)
     = (columns
        ++ map (fun p => NewExpr (buildWindowExpression (fst p) (snd p)))
             (combine (Cte.windowFuncs c)
                (firstn (List.length (Cte.windowFuncs c)) (Cte.windowSpecs c)
                 ++ repeat WindowSpec_zero
                      (List.length (Cte.windowFuncs c)
                       - List.length (Cte.windowSpecs c)))))%list
  /\ SQL (buildWindowExpression f WindowSpec_zero)
     = WindowFuncName f ++ " OVER ()".
Proof.
  split; [|split; [|reflexivity]].
  - unfold Select_columns. rewrite window_loop_combine. reflexivity.
  - unfold Cte.Select_step. cbn [fst]. rewrite window_loop_combine.
    reflexivity.
Qed.

(** A view of three functions and one specification, and a view of one
    function and two specifications. *)
Example Select_pairs_example :
  map (fun x => match e x with Some ex => SQL ex | None => ColumnName x end)
    (Select_columns
       {| wDO := tt;
          windowFuncs := [RowNumberFunc; RankFunc; WindowSum salary];
          windowSpecs := [ {| PartitionBy := [department]; OrderBy := [];
                              Frame := None |} ] |}
       [salary])
  = ["salary"; "ROW_NUMBER() OVER (PARTITION BY ?)"; "RANK() OVER ()";
     "SUM(?) OVER ()"]
  /\ map (fun x => match e x with Some ex => SQL ex | None => ColumnName x end)
       (Select_columns
          {| wDO := tt;
             windowFuncs := [RankFunc];
             windowSpecs := [ {| PartitionBy := []; OrderBy := [salary];
                                 Frame := None |};
                              {| PartitionBy := [department]; OrderBy := [];
                                 Frame := None |} ] |}
          [])
     = ["RANK() OVER (ORDER BY ?)"].
Proof. split; reflexivity. Qed.

(** * Further properties of the builders *)

(** ** The specification list of the views *)

Lemma edit_last_snoc (upd : WindowSpec -> WindowSpec)
    (specs : list WindowSpec) (s : WindowSpec) :
  edit_last upd (specs ++ [s]) = (specs ++ [upd s])%list.
Proof.
  unfold edit_last.
  assert (Hlen : List.length (specs ++ [s]) = S (List.length specs)).
  { rewrite length_app. simpl. lia. }
  rewrite Hlen. cbn [Nat.eqb]. rewrite !Hlen.
  replace (S (List.length specs) - 1)%nat with (List.length specs) by lia.
  rewrite firstn_app, firstn_all, Nat.sub_diag, firstn_0, app_nil_r.
  rewrite skipn_app, skipn_all, Nat.sub_diag. reflexivity.
Qed.

Lemma edit_last_nil (upd : WindowSpec -> WindowSpec) :
  edit_last upd [] = [upd WindowSpec_zero].
Proof. reflexivity. Qed.

Lemma list_snoc_cases {A : Type} (l : list A) :
  l = [] \/ exists l' x, l = (l' ++ [x])%list.
Proof.
  destruct l as [|a l]; [now left|]. right.
  exists (removelast (a :: l)), (last (a :: l) a).
  apply app_removelast_last. discriminate.
Qed.

Lemma edit_last_length (upd : WindowSpec -> WindowSpec)
    (specs : list WindowSpec) :
  List.length (edit_last upd specs) = Nat.max 1 (List.length specs).
Proof.
  destruct (list_snoc_cases specs) as [-> | (l & x & ->)]; [reflexivity|].
  rewrite edit_last_snoc, !length_app. cbn [List.length]. lia.
Qed.

Lemma edit_last_compose (f g : WindowSpec -> WindowSpec)
    (specs : list WindowSpec) :
  edit_last f (edit_last g specs) = edit_last (fun s => f (g s)) specs.
Proof.
  destruct (list_snoc_cases specs) as [-> | (l & x & ->)]; [reflexivity|].
  now rewrite !edit_last_snoc.
Qed.

Lemma edit_last_ext (f g : WindowSpec -> WindowSpec)
    (specs : list WindowSpec) :
  (forall s, f s = g s) -> edit_last f specs = edit_last g specs.
Proof.
  intros H.
  destruct (list_snoc_cases specs) as [-> | (l & x & ->)].
  - rewrite !edit_last_nil. now rewrite H.
  - rewrite !edit_last_snoc. now rewrite H.
Qed.

Lemma view_run_specs_le_1 {DO : Type} (calls : list view_call)
    (w : windowViewDO DO) :
  (List.length (windowSpecs w) <= 1)%nat ->
  (List.length (windowSpecs (view_run calls w)) <= 1)%nat.
Proof.
  revert w; induction calls as [|c calls IH]; intros w H; [exact H|].
  apply IH. destruct c; cbn [view_apply Window.Window ViewPartitionBy
    WindowOrderBy ViewFrame windowSpecs];
    rewrite ?edit_last_length; lia.
Qed.

(** X1.  A window view built from [With()] by [Window], [PartitionBy],
    [WindowOrderBy] and [Frame] calls holds at most one specification,
    however many window functions it holds: the three setters create a
    specification only when there is none and edit the last one
    otherwise. *)
Theorem view_without_Over_has_one_spec {DO : Type} (d : DO)
    (calls : list view_call) :
  (List.length (windowSpecs (view_run calls (With d))) <= 1)%nat
  /\ List.length (windowFuncs (view_run calls (With d)))
     = List.length (filter (fun c => match c with
                                     | CallWindow _ => true
                                     | _ => false
                                     end) calls).
Proof.
  split.
  - apply view_run_specs_le_1. simpl. lia.
  - assert (G : forall (w : windowViewDO DO),
               List.length (windowFuncs (view_run calls w))
               = (List.length (windowFuncs w)
                  + List.length (filter (fun c => match c with
                                                  | CallWindow _ => true
                                                  | _ => false
                                                  end) calls))%nat).
    { unfold view_run.
      induction calls as [|c calls IH]; intros w; cbn [fold_left filter].
      - simpl. lia.
      - rewrite IH.
        destruct c; cbn [view_apply Window.Window ViewPartitionBy
          WindowOrderBy ViewFrame windowFuncs List.length];
          rewrite ?length_app; cbn [List.length]; lia. }
    rewrite G. reflexivity.
Qed.

Lemma window_loop_prefix (i : nat) (funcs : list WindowFunction)
    (specs : list WindowSpec) (acc : list expr) :
  exists tail, window_loop i funcs specs acc = (acc ++ tail)%list.
Proof. eexists. apply window_loop_combine. Qed.

Lemma window_loop_nth (funcs : list WindowFunction)
    (specs : list WindowSpec) :
  forall (i : nat) (acc : list expr) (k : nat) (f : WindowFunction),
    nth_error funcs k = Some f ->
    nth_error (window_loop i funcs specs acc) (List.length acc + k)
    = Some (NewExpr (buildWindowExpression f
                       (nth (i + k) specs WindowSpec_zero))).
Proof.
  induction funcs as [|g funcs IH]; intros i acc k f Hk.
  - destruct k; discriminate.
  - cbn [window_loop].
    assert (Hspec : (if (i <? List.length specs)%nat
                     then nth i specs WindowSpec_zero else WindowSpec_zero)
                    = nth i specs WindowSpec_zero).
    { destruct (Nat.ltb_spec i (List.length specs)); [reflexivity|].
      now rewrite nth_overflow. }
    rewrite Hspec.
    destruct k as [|k].
    + injection Hk as ->.
      destruct (window_loop_prefix (S i) funcs specs
                  (acc ++ [NewExpr (buildWindowExpression f
                                      (nth i specs WindowSpec_zero))]))
        as [tail ->].
      rewrite !Nat.add_0_r, <- app_assoc, nth_error_app2 by lia.
      now rewrite Nat.sub_diag.
    + simpl in Hk.
      specialize (IH (S i)
                    (acc ++ [NewExpr (buildWindowExpression g
                                        (nth i specs WindowSpec_zero))])%list
                    k f Hk).
      rewrite length_app in IH. simpl in IH.
      replace (List.length acc + S k)%nat
        with (List.length acc + 1 + k)%nat by lia.
      rewrite IH. do 4 f_equal. lia.
Qed.

(** X2.  In such a view every window function after the first is compiled
    with the zero specification: [Select] returns for it
    [<FUNC> OVER ()], whatever [PartitionBy], [WindowOrderBy] or [Frame]
    call followed its [Window] call. *)
Theorem later_functions_get_empty_over {DO : Type} (d : DO)
    (calls : list view_call) (columns : list expr) (i : nat)
    (f : WindowFunction) :
  nth_error (windowFuncs (view_run calls (With d))) (S i) = Some f ->
  nth_error (Select_columns (view_run calls (With d)) columns)
    (List.length columns + S i)
  = Some (NewExpr (mkExpr (WindowFuncName f ++ " OVER ()") [WRawExpr f])).
Proof.
  intros Hf. unfold Select_columns.
  pose proof (window_loop_nth (windowFuncs (view_run calls (With d)))
                (windowSpecs (view_run calls (With d)))
                0 ([] ++ columns)%list (S i) f Hf) as H.
  cbn [app] in H |- *. rewrite H. cbn [Nat.add].
  rewrite nth_overflow; [reflexivity|].
  pose proof (view_run_specs_le_1 calls (With d)) as Hle.
  cbn [With windowSpecs List.length] in Hle. lia.
Qed.

Lemma later_functions_get_empty_over_witness :
  let calls := [CallWindow RowNumberFunc; CallPartitionBy [department];
                CallWindowOrderBy [Desc salary];
                CallWindow RankFunc; CallPartitionBy [hire_date]] in
  nth_error (windowFuncs (view_run calls (With tt))) 1 = Some RankFunc
  /\ nth_error (Select_columns (view_run calls (With tt)) [salary]) 2
     = Some (NewExpr (mkExpr "RANK() OVER ()" [WRawExpr RankFunc])).
Proof.
  split; [reflexivity|].
  apply (later_functions_get_empty_over tt
           [CallWindow RowNumberFunc; CallPartitionBy [department];
            CallWindowOrderBy [Desc salary];
            CallWindow RankFunc; CallPartitionBy [hire_date]]
           [salary] 0 RankFunc).
  reflexivity.
Defined.

(** X3.  The setters of a window view act on one specification: two
    setters of different fields commute, and of two calls of the same
    setter the later one wins. *)
Theorem view_setters_compose {DO : Type} (w : windowViewDO DO)
    (p p' o o' : list expr) (fr fr' : FrameSpec) :
  ViewPartitionBy (WindowOrderBy w o) p = WindowOrderBy (ViewPartitionBy w p) o
  /\ ViewFrame (ViewPartitionBy w p) fr = ViewPartitionBy (ViewFrame w fr) p
  /\ ViewFrame (WindowOrderBy w o) fr = WindowOrderBy (ViewFrame w fr) o
  /\ ViewPartitionBy (ViewPartitionBy w p) p' = ViewPartitionBy w p'
  /\ WindowOrderBy (WindowOrderBy w o) o' = WindowOrderBy w o'
  /\ ViewFrame (ViewFrame w fr) fr' = ViewFrame w fr'.
Proof.
  unfold ViewPartitionBy, WindowOrderBy, ViewFrame;
    cbn [wDO windowFuncs windowSpecs].
  repeat split; f_equal; rewrite !edit_last_compose;
    apply edit_last_ext; intros s; reflexivity.
Qed.

(** X4.  After [Over(spec)] the setters edit that specification and leave
    the earlier ones as they are; [Over] itself always appends. *)
Theorem setters_edit_the_spec_of_Over {DO : Type} (w : windowViewDO DO)
    (spec : WindowSpec) (columns : list expr) (frameSpec : FrameSpec) :
  windowSpecs (ViewPartitionBy (Over w spec) columns)
  = (windowSpecs w
     ++ [ {| PartitionBy := columns; OrderBy := OrderBy spec;
             Frame := Frame spec |} ])%list
  /\ windowSpecs (WindowOrderBy (Over w spec) columns)
     = (windowSpecs w
        ++ [ {| PartitionBy := PartitionBy spec; OrderBy := columns;
                Frame := Frame spec |} ])%list
  /\ windowSpecs (ViewFrame (Over w spec) frameSpec)
     = (windowSpecs w
        ++ [ {| PartitionBy := PartitionBy spec; OrderBy := OrderBy spec;
                Frame := Some frameSpec |} ])%list
  /\ List.length (windowSpecs (Over w spec))
     = S (List.length (windowSpecs w)).
Proof.
  unfold ViewPartitionBy, WindowOrderBy, ViewFrame, Over;
    cbn [windowSpecs].
  rewrite !edit_last_snoc, length_app. simpl.
  repeat split. lia.
Qed.

(** ** [WindowFunction.Over] of the field package *)

Lemma Over_parts (w : WindowFunction) (spec : WindowSpec) :
  FieldWindow.Over w spec
  = let sql := funcName w ++ " OVER (" ++ partition_text spec
               ++ order_text spec ++ over_frame_text spec ++ ")" in
    {| wexpr :=
         setE (wexpr w)
           (mkExpr sql
              (WRawExpr w
               :: map RawExpr (PartitionBy spec)
                  ++ map RawExpr (OrderBy spec)));
       funcName := sql |}.
Proof.
  unfold FieldWindow.Over, partition_text, order_text, over_frame_text,
    placeholders.
  destruct spec as [P O F]; cbn [PartitionBy OrderBy Frame].
  destruct P as [|p P], O as [|o O], F as [f|];
    cbn [List.length Nat.ltb Nat.leb fst snd];
    rewrite ?columns_loop_0; cbn [fst snd app];
    rewrite ?app_nil_r;
    try (destruct ((bType (Start f) =? UnboundedPreceding)
                   && match End_ f with
                      | Some fin => bType fin =? CurrentRow
                      | None => false
                      end));
    cbv zeta;
    repeat lazymatch goal with
           | |- @eq string _ _ => string_norm; reflexivity
           | |- @eq (list _) _ _ => reflexivity
           | |- _ => f_equal
           end.
Qed.

(** X5.  [WindowFunction.Over] writes the function name, [ OVER (], the
    partition and order placeholders and [)] as [buildWindowExpression]
    does, and collects the same variables; of a frame it writes the unit,
    and the bounds only when they are [UNBOUNDED PRECEDING] and
    [CURRENT ROW]: any other bounds, and every offset, are left out.  The
    result carries the whole text as its new function name. *)
Theorem Over_writes_unit_and_one_frame_only (w : WindowFunction)
    (spec : WindowSpec) :
  funcName (FieldWindow.Over w spec)
  = funcName w ++ " OVER ("
    ++ partition_text spec ++ order_text spec
    ++ match Frame spec with
       | Some frame =>
           " " ++ fType frame ++ " "
           ++ (if (bType (Start frame) =? UnboundedPreceding)
                  && match End_ frame with
                     | Some fin => bType fin =? CurrentRow
                     | None => false
                     end
               then "UNBOUNDED PRECEDING AND CURRENT ROW" else "")
       | None => ""
       end
    ++ ")"
  /\ e (wexpr (FieldWindow.Over w spec))
     = Some (mkExpr (funcName (FieldWindow.Over w spec))
               (WRawExpr w
                :: map RawExpr (PartitionBy spec)
                   ++ map RawExpr (OrderBy spec))).
Proof. rewrite Over_parts. split; reflexivity. Qed.

(** X6.  On a specification without frame the two compilers agree:
    [WindowFunction.Over] and [buildWindowExpression] return the same text
    and the same variables. *)
Theorem Over_agrees_without_frame (w : WindowFunction) (spec : WindowSpec) :
  Frame spec = None ->
  e (wexpr (FieldWindow.Over w spec)) = Some (buildWindowExpression w spec)
  /\ funcName (FieldWindow.Over w spec) = SQL (buildWindowExpression w spec).
Proof.
  intros HF. rewrite Over_parts, buildWindowExpression_parts.
  unfold over_frame_text, frame_text. rewrite HF.
  split; reflexivity.
Qed.

Lemma Over_agrees_without_frame_witness :
  let spec := {| PartitionBy := [department]; OrderBy := [Desc salary];
                 Frame := None |} in
  Frame spec = None
  /\ funcName (FieldWindow.Over (WindowSum salary) spec)
     = "SUM(?) OVER (PARTITION BY ? ORDER BY ?)"
  /\ funcName (FieldWindow.Over (WindowSum salary) spec)
     = SQL (buildWindowExpression (WindowSum salary) spec).
Proof.
  split; [reflexivity|]. split; [reflexivity|].
  apply (Over_agrees_without_frame (WindowSum salary)
           {| PartitionBy := [department]; OrderBy := [Desc salary];
              Frame := None |}).
  reflexivity.
Defined.

(** X7.  Every window-function constructor of the field package returns
    an aligned function: its name is the text of its expression, and the
    text holds one placeholder per variable, for every column, offset,
    count and default value. *)
Theorem constructors_are_aligned (x : expr) (n : Z)
    (defaultValue : list value) :
  Forall aligned
    [RowNumber x; Rank x; DenseRank x; PercentRank x; CumeDist x;
     Lag x n defaultValue; Lead x n defaultValue;
     FirstValue x; LastValue x; NthValue x n;
     WindowSum x; WindowAvg x; WindowCount x; WindowMax x; WindowMin x;
     Ntile x n;
     RowNumberFunc; RankFunc; DenseRankFunc; PercentRankFunc].
Proof.
  destruct defaultValue as [|d rest];
    repeat (constructor; [split; reflexivity|]); constructor.
Qed.

(** ** The frame clause, again *)

(** X8.  Over the declared bound kinds [buildFrameClause] writes one
    placeholder for every bound that carries an offset and none
    otherwise, whatever the kind the offset is attached to. *)
Theorem buildFrameClause_one_placeholder_per_offset (frame : FrameSpec) :
  In (bType (Start frame))
    [UnboundedPreceding; Preceding; CurrentRow; Following;
     UnboundedFollowing] ->
  match End_ frame with
  | Some fin =>
      In (bType fin)
        [UnboundedPreceding; Preceding; CurrentRow; Following;
         UnboundedFollowing]
  | None => True
  end ->
  count_placeholders (buildFrameClause frame) = offsets_given frame.
Proof.
  intros Hs He. rewrite buildFrameClause_render. unfold offsets_given.
  rewrite count_placeholders_append, count_placeholders_render_bound.
  assert (K : forall k, In k [UnboundedPreceding; Preceding; CurrentRow;
                              Following; UnboundedFollowing] ->
                        count_placeholders k = 0%nat).
  { intros k Hk. apply declared_kind_cases in Hk.
    destruct Hk as [-> | [-> | [-> | [-> | ->]]]]; reflexivity. }
  rewrite (K _ Hs).
  destruct (End_ frame) as [fin|].
  - rewrite count_placeholders_append, count_placeholders_render_bound,
      (K _ He). simpl. lia.
  - simpl. lia.
Qed.

Lemma buildFrameClause_one_placeholder_per_offset_witness :
  count_placeholders (buildFrameClause frame_symmetric) = 2%nat.
Proof.
  apply (buildFrameClause_one_placeholder_per_offset frame_symmetric);
    simpl; auto.
Defined.

(** ** with.go: the string based window function, further *)

Lemma over_parts_by_names (P P' O O' : list expr)
    (fr : option With.FrameClause) :
  map ColumnName P = map ColumnName P' ->
  map ColumnName O = map ColumnName O' ->
  over_parts {| With.partitionBy := P; With.orderBy := O; With.frame := fr |}
  = over_parts {| With.partitionBy := P'; With.orderBy := O';
                  With.frame := fr |}.
Proof.
  intros HP HO. unfold over_parts.
  cbn [With.partitionBy With.orderBy With.frame].
  rewrite HP, HO.
  destruct P, P'; try discriminate; destruct O, O'; try discriminate;
    reflexivity.
Qed.

(** X9.  [buildSQL] of with.go reads of every column its [ColumnName()]
    only: an order or partition column wrapped by [Desc()] or [Asc()]
    compiles to the same text as the bare column, so the direction is not
    written. *)
Theorem buildSQL_drops_direction (fn : string) (P O : list expr)
    (fr : option With.FrameClause) :
  With.buildSQL
    {| With.Function := fn;
       With.overClause :=
         Some {| With.partitionBy := P; With.orderBy := map Desc O;
                 With.frame := fr |} |}
  = With.buildSQL
      {| With.Function := fn;
         With.overClause :=
           Some {| With.partitionBy := P; With.orderBy := O;
                   With.frame := fr |} |}
  /\ With.buildSQL
       {| With.Function := fn;
          With.overClause :=
            Some {| With.partitionBy := map Asc P; With.orderBy := map Asc O;
                    With.frame := fr |} |}
     = With.buildSQL
         {| With.Function := fn;
            With.overClause :=
              Some {| With.partitionBy := P; With.orderBy := O;
                      With.frame := fr |} |}.
Proof.
  rewrite !buildSQL_parts. cbn [With.Function With.overClause].
  split.
  - rewrite (over_parts_by_names P P (map Desc O) O fr);
      rewrite ?map_map; reflexivity.
  - rewrite (over_parts_by_names (map Asc P) P (map Asc O) O fr);
      rewrite ?map_map; reflexivity.
Qed.

(** X10.  [Over()] allocates the clause once: a second call returns the
    clause already configured, so setters applied through two [Over()]
    calls accumulate on the same clause, and a bare [Over()] does not
    change the compiled text. *)
Theorem Over_keeps_the_clause (w : With.WindowFunction)
    (f g : With.OverClause -> With.OverClause) :
  With.Over (With.Over w) = With.Over w
  /\ With.Over (With.over_set f (With.Over w)) = With.over_set f (With.Over w)
  /\ With.over_set g (With.Over (With.over_set f (With.Over w)))
     = With.over_set (fun o => g (f o)) (With.Over w)
  /\ With.buildSQL (With.Over w) = With.buildSQL w.
Proof.
  destruct w as [fn [o|]]; repeat split.
  unfold With.buildSQL, With.Over. cbn. now rewrite append_nil_r.
Qed.

(** ** with.go: [From] and chains of [With] *)

(** X11.  [WithQuery.From] targets the given name as table, whether or not
    a CTE of that name was declared, and attaches one clause holding the
    WITH list and the parameters of all CTEs in declaration order;
    [Select] emits the same WITH list, followed by its base query, and the
    same parameters, followed by those of the base query. *)
Theorem From_attaches_the_with_list {Dao : Type}
    (buildExpr4Select : Gorm.DB -> list expr -> string * list value)
    (getInstance : Gorm.DO -> Gorm.DB -> Dao)
    (w : With.WithQuery) (cteName : string) (columns : list expr) :
  let withSQL :=
    "WITH " ++ String.concat ", " (map with_part (With.withClauses w)) in
  let allArgs := flat_map with_params (With.withClauses w) in
  With.From getInstance w cteName
  = getInstance (With.wDO w)
      (Gorm.Clauses
         (Gorm.Table (Gorm.Session (Gorm.db (With.wDO w)) false) cteName)
         withSQL allArgs)
  /\ With.Select_Raw buildExpr4Select w columns
     = (withSQL ++ " " ++ fst (select_base buildExpr4Select w columns),
        (allArgs ++ snd (select_base buildExpr4Select w columns))%list).
Proof.
  cbv zeta. split.
  - unfold With.From. rewrite with_loop_parts. reflexivity.
  - rewrite Select_Raw_parts. reflexivity.
Qed.

(** X12.  A chain [d.With(n0, q0).With(n1, q1)...] holds its CTEs in the
    order of the calls, none dropped or merged, and [Select] lists them in
    that order. *)
Theorem With_chain_keeps_order
    (buildExpr4Select : Gorm.DB -> list expr -> string * list value)
    (d : Gorm.DO) (name : string)
    (query : Gorm.SubQuery) (more : list (string * Gorm.SubQuery)) :
  let w := fold_left (fun w p => With.With w (fst p) (snd p)) more
             (With.DO_With d name query) in
  let clauses := map (fun p => With.mkWithClause (fst p) (snd p))
                   ((name, query) :: more) in
  With.withClauses w = clauses
  /\ With.Select_Raw buildExpr4Select w []
     = ("WITH " ++ String.concat ", " (map with_part clauses) ++ " SELECT *",
        flat_map with_params clauses).
Proof.
  cbv zeta.
  assert (G : forall w,
             With.withClauses
               (fold_left (fun w p => With.With w (fst p) (snd p)) more w)
             = (With.withClauses w
                ++ map (fun p => With.mkWithClause (fst p) (snd p)) more)%list).
  { induction more as [|p more IH]; intros w; cbn [fold_left map].
    - now rewrite app_nil_r.
    - rewrite IH. cbn [With.With With.withClauses].
      now rewrite <- app_assoc. }
  split.
  - rewrite G. reflexivity.
  - rewrite Select_Raw_parts, G. cbn [select_base fst snd].
    rewrite app_nil_r. reflexivity.
Qed.

(** ** cte.go: the CTE view and its builder *)

Lemma cte_run_state (calls : list cte_call) (c : Cte.cteViewDO) :
  Cte.ctes (cte_run calls c) = (Cte.ctes c ++ declared_ctes calls)%list
  /\ Cte.fromCTE (cte_run calls c) = last_from (Cte.fromCTE c) calls.
Proof.
  unfold cte_run, declared_ctes, last_from.
  revert c; induction calls as [|call calls IH]; intros c;
    cbn [fold_left flat_map].
  - now rewrite app_nil_r.
  - destruct (IH (cte_apply c call)) as [H1 H2]. rewrite H1, H2.
    destruct call; cbn [cte_apply Cte.WithCTE Cte.FromCTE Cte.Window
      Cte.CtePartitionBy Cte.CteWindowOrderBy Cte.CteFrame Cte.ctes
      Cte.fromCTE app]; rewrite <- ?app_assoc; split; reflexivity.
Qed.

Lemma Select_step_raw (c : Cte.cteViewDO) (columns : list expr)
    (x : Cte.cteImpl) (l : list Cte.cteImpl) :
  Cte.ctes c = x :: l ->
  Gorm.db (Cte.cDO (snd (Cte.Select_step c columns)))
  = Gorm.Raw (Gorm.db (Cte.cDO c))
      ("WITH " ++ String.concat ", " (map cte_part (x :: l))
       ++ " SELECT * FROM " ++ Cte.fromCTE c) [].
Proof.
  intros E. unfold Cte.Select_step. cbn [snd]. rewrite E.
  cbn [List.length Nat.ltb Nat.leb Cte.set_db Cte.cDO Gorm.db].
  rewrite buildCTEQuery_parts, E. reflexivity.
Qed.

(** X13.  A CTE view built by [WithCTE(name, query)] and any chain of
    [WithCTE], [FromCTE], [Window], [PartitionBy], [WindowOrderBy] and
    [Frame] calls holds the first CTE followed by the later ones in call
    order, and selects from the name of its last [FromCTE] call.  [Select]
    always replaces the statement by a [Raw] one: the WITH list, then
    [SELECT * FROM] and that name, with no parameters. *)
Theorem cte_view_select_is_raw (name : string) (query : Gorm.SubQuery)
    (calls : list cte_call) (columns : list expr) :
  let c := cte_run calls (Cte.NewWithCTE name query) in
  Cte.ctes c = Cte.mkCte name query :: declared_ctes calls
  /\ Cte.fromCTE c = last_from "" calls
  /\ Gorm.db (Cte.cDO (snd (Cte.Select_step c columns)))
     = Gorm.Raw (Gorm.db (Cte.cDO c))
         ("WITH "
          ++ String.concat ", "
               (map cte_part (Cte.mkCte name query :: declared_ctes calls))
          ++ " SELECT * FROM " ++ last_from "" calls) [].
Proof.
  cbv zeta.
  destruct (cte_run_state calls (Cte.NewWithCTE name query)) as [H1 H2].
  cbn [Cte.NewWithCTE Cte.ctes Cte.fromCTE app] in H1, H2.
  split; [exact H1|]. split; [exact H2|].
  rewrite (Select_step_raw _ columns _ _ H1), H2. reflexivity.
Qed.

(** X14.  Without a [FromCTE] call the relation name is empty: a view
    fresh from [WithCTE(name, query)], and so the view [As()] of the CTE
    window builder returns, selects with a statement that ends in
    [SELECT * FROM ] and no relation. *)
Theorem select_without_FromCTE_has_no_relation (name : string)
    (query : Gorm.SubQuery) (columns : list expr)
    (asterisk : expr) (DO_Select : Gorm.DO -> list expr -> Gorm.SubQuery)
    (b : CteBuilder.CTEWindowBuilder) :
  Gorm.last_Raw
    (Gorm.db (Cte.cDO (snd (Cte.Select_step (Cte.NewWithCTE name query)
                              columns))))
  = Some ("WITH " ++ name ++ " AS (" ++ Gorm.ToSQL query
          ++ ") SELECT * FROM ", [])
  /\ Gorm.last_Raw
       (Gorm.db (Cte.cDO (snd (Cte.Select_step
                                 (CteBuilder.As asterisk DO_Select b)
                                 columns))))
     = Some ("WITH " ++ CteBuilder.bname b ++ " AS ("
             ++ Gorm.ToSQL (DO_Select (CteBuilder.bdo b)
                              (CteBuilder.As_columns asterisk b))
             ++ ") SELECT * FROM ", []).
Proof.
  split.
  - rewrite (Select_step_raw (Cte.NewWithCTE name query) columns
               (Cte.mkCte name query) [] eq_refl).
    cbn [Gorm.last_Raw map Cte.NewWithCTE Cte.fromCTE]. unfold cte_part.
    cbn [String.concat Cte.CTEName Cte.CTEQuery Cte.name Cte.query].
    f_equal. f_equal. string_norm. reflexivity.
  - unfold CteBuilder.As.
    rewrite (Select_step_raw
               (Cte.NewWithCTE (CteBuilder.bname b)
                  (DO_Select (CteBuilder.bdo b)
                     (CteBuilder.As_columns asterisk b))) columns
               (Cte.mkCte (CteBuilder.bname b)
                  (DO_Select (CteBuilder.bdo b)
                     (CteBuilder.As_columns asterisk b))) [] eq_refl).
    cbn [Gorm.last_Raw map Cte.NewWithCTE Cte.fromCTE]. unfold cte_part.
    cbn [String.concat Cte.CTEName Cte.CTEQuery Cte.name Cte.query].
    f_equal. f_equal. string_norm. reflexivity.
Qed.

(** X15.  [cteImpl.Build] writes to the builder the fragment
    [name AS (sql)] that the loop of [buildCTEQuery] puts in the WITH
    list for the same CTE, after what the builder already holds; with a
    nil query it writes [name AS ()]. *)
Theorem Build_writes_the_cte_fragment (c : Cte.cteImpl) (builder : string) :
  CteBuilder.Build (Cte.name c) (Some (Cte.query c)) builder
  = builder ++ cte_part c
  /\ CteBuilder.Build (Cte.name c) None builder
     = builder ++ Cte.name c ++ " AS ()"
  /\ Cte.cte_loop 0 [c] builder = builder ++ cte_part c.
Proof.
  unfold CteBuilder.Build, cte_part, Cte.CTEName, Cte.CTEQuery.
  repeat split; cbn [Cte.cte_loop Nat.ltb Nat.leb];
    string_norm; reflexivity.
Qed.

(** X16.  [As()] of the CTE window builder compiles the window functions
    into the column list of the sub-query, after the asterisk and in
    declaration order, pairing them with the specifications as [Select]
    does; the view it returns holds that sub-query as its only CTE, under
    the builder's name, and no window function or specification. *)
Theorem As_moves_the_functions_into_the_subquery
    (asterisk : expr) (DO_Select : Gorm.DO -> list expr -> Gorm.SubQuery)
    (b : CteBuilder.CTEWindowBuilder) :
  CteBuilder.As_columns asterisk b
  = asterisk
    :: map (fun p => NewExpr (buildWindowExpression (fst p) (snd p)))
         (combine (CteBuilder.bwindowFuncs b)
            (firstn (List.length (CteBuilder.bwindowFuncs b))
               (CteBuilder.bwindowSpecs b)
             ++ repeat WindowSpec_zero
                  (List.length (CteBuilder.bwindowFuncs b)
                   - List.length (CteBuilder.bwindowSpecs b))))
  /\ Cte.ctes (CteBuilder.As asterisk DO_Select b)
     = [Cte.mkCte (CteBuilder.bname b)
          (DO_Select (CteBuilder.bdo b) (CteBuilder.As_columns asterisk b))]
  /\ Cte.windowFuncs (CteBuilder.As asterisk DO_Select b) = []
  /\ Cte.windowSpecs (CteBuilder.As asterisk DO_Select b) = [].
Proof.
  repeat split.
  unfold CteBuilder.As_columns. rewrite window_loop_combine. reflexivity.
Qed.

(** ** expr.go: columns *)

Lemma fold_apply_opt (x : expr) (opts : list BuildOpt) (c : Column) :
  fold_left (FieldExpr.apply_opt x) opts c
  = {| Table := if has_table opts then Table (col x) else Table c;
       Name := Name c;
       Alias := if has_all opts then Alias (col x) else Alias c;
       Raw := has_noquote opts || Raw c |}.
Proof.
  revert c; induction opts as [|o opts IH]; intros c.
  - destruct c; reflexivity.
  - cbn [fold_left]. rewrite IH.
    destruct o; cbn [FieldExpr.apply_opt has_table has_all has_noquote
      existsb orb Table Name Alias Raw];
      fold (has_table opts); fold (has_all opts); fold (has_noquote opts);
      destruct (has_table opts), (has_all opts), (has_noquote opts);
      reflexivity.
Qed.

Lemma existsb_same_elements {A : Type} (f : A -> bool) (l l' : list A) :
  (forall a, In a l <-> In a l') -> existsb f l = existsb f l'.
Proof.
  intros H. apply eq_true_iff_eq. rewrite !existsb_exists.
  split; intros (a & Ha & Hf); exists a; split; auto; now apply H.
Qed.

(** X17.  [BuildColumn] depends on which options are given, not on their
    order or number: the table is set when [WithTable] or [WithAll]
    occurs, the alias when [WithAll] occurs, quoting is switched off when
    [WithoutQuote] occurs, among the options of the expression and of the
    call taken together. *)
Theorem BuildColumn_depends_on_the_option_set
    (Quote_name : string -> string) (Quote_column : Column -> string)
    (x : expr) (opts opts' : list BuildOpt) :
  (forall o, In o opts <-> In o opts') ->
  FieldExpr.built_column x opts
  = {| Table := if has_table (buildOpts x ++ opts) then Table (col x) else "";
       Name := Name (col x);
       Alias := if has_all (buildOpts x ++ opts) then Alias (col x) else "";
       Raw := has_noquote (buildOpts x ++ opts) |}
  /\ FieldExpr.BuildColumn Quote_name Quote_column x opts
     = FieldExpr.BuildColumn Quote_name Quote_column x opts'.
Proof.
  intros H.
  assert (G : forall o, In o (buildOpts x ++ opts)
                        <-> In o (buildOpts x ++ opts')).
  { intros o. rewrite !in_app_iff. now rewrite (H o). }
  split.
  - unfold FieldExpr.built_column. rewrite fold_apply_opt.
    cbn [Table Name Alias Raw]. now rewrite orb_false_r.
  - unfold FieldExpr.BuildColumn, FieldExpr.built_column.
    rewrite !fold_apply_opt.
    unfold has_table, has_all, has_noquote.
    rewrite (existsb_same_elements _ _ _ G).
    rewrite (existsb_same_elements
               (fun o => match o with WithAll => true | _ => false end)
               _ _ G).
    rewrite (existsb_same_elements
               (fun o => match o with WithoutQuote => true | _ => false end)
               _ _ G).
    reflexivity.
Qed.

Lemma BuildColumn_depends_on_the_option_set_witness :
  FieldExpr.BuildColumn (fun t => t) (fun c => Table c ++ "." ++ Name c)
    salary [WithoutQuote; WithTable; WithTable]
  = FieldExpr.BuildColumn (fun t => t) (fun c => Table c ++ "." ++ Name c)
      salary [WithTable; WithoutQuote].
Proof.
  apply (BuildColumn_depends_on_the_option_set
           (fun t => t) (fun c => Table c ++ "." ++ Name c) salary
           [WithoutQuote; WithTable; WithTable] [WithTable; WithoutQuote]).
  intros o; simpl; intuition.
Defined.

(** X18.  For the asterisk column [BuildColumn] never quotes the column:
    the result is [*], or the quoted table followed by [.*] when a table
    option is given and the table is not empty; the alias and
    [WithoutQuote] play no part. *)
Theorem BuildColumn_asterisk
    (Quote_name : string -> string) (Quote_column : Column -> string)
    (x : expr) (opts : list BuildOpt) :
  Name (col x) = "*" ->
  FieldExpr.BuildColumn Quote_name Quote_column x opts
  = if has_table (buildOpts x ++ opts) && negb (Table (col x) =? "")
    then Quote_name (Table (col x)) ++ ".*"
    else "*".
Proof.
  intros HN. unfold FieldExpr.BuildColumn, FieldExpr.built_column.
  rewrite fold_apply_opt. cbn [Table Name Alias Raw]. rewrite HN.
  cbn [String.eqb Ascii.eqb Bool.eqb].
  destruct (has_table (buildOpts x ++ opts)); cbn [andb].
  - destruct (Table (col x) =? ""); reflexivity.
  - reflexivity.
Qed.

Lemma BuildColumn_asterisk_witness :
  FieldExpr.BuildColumn (fun t => "`" ++ t ++ "`") (fun c => Name c)
    (NewField "users" "*") [WithoutQuote; WithAll]
  = "`users`.*"
  /\ FieldExpr.BuildColumn (fun t => "`" ++ t ++ "`") (fun c => Name c)
       (NewField "users" "*") [WithoutQuote]
     = "*".
Proof.
  split.
  - apply (BuildColumn_asterisk (fun t => "`" ++ t ++ "`") (fun c => Name c)
             (NewField "users" "*") [WithoutQuote; WithAll]).
    reflexivity.
  - apply (BuildColumn_asterisk (fun t => "`" ++ t ++ "`") (fun c => Name c)
             (NewField "users" "*") [WithoutQuote]).
    reflexivity.
Defined.

(** ** expr.go: expressions *)

Lemma concat_loop_map (cols : list expr) (placeholders : list string)
    (vars : list value) :
  FieldExpr.concat_loop cols (placeholders, vars)
  = ((placeholders ++ map (fun _ : expr => "?") cols)%list,
     (vars ++ map RawExpr cols)%list).
Proof.
  revert placeholders vars;
    induction cols as [|c cols IH]; intros placeholders vars; simpl.
  - now rewrite !app_nil_r.
  - rewrite IH, <- !app_assoc. reflexivity.
Qed.

(** X19.  [ConcatCol] is aligned: the text is [CONCAT(] followed by one
    placeholder for the receiver and one per column, comma separated, and
    [)], and the variables are the receiver's expression followed by the
    columns' expressions in the order given. *)
Theorem ConcatCol_is_aligned (x : expr) (cols : list expr) :
  e (FieldExpr.ConcatCol x cols)
  = Some (mkExpr
            ("CONCAT("
             ++ String.concat "," (map (fun _ : expr => "?") (x :: cols))
             ++ ")")
            (map RawExpr (x :: cols)))
  /\ count_placeholders
       ("CONCAT("
        ++ String.concat "," (map (fun _ : expr => "?") (x :: cols)) ++ ")")
     = List.length (map RawExpr (x :: cols)).
Proof.
  split.
  - unfold FieldExpr.ConcatCol. rewrite concat_loop_map. reflexivity.
  - cbn [map]. rewrite concat_cons, !count_placeholders_append,
      count_placeholders_prefixed, !length_map.
    assert (H : forall l : list expr,
               list_sum (map count_placeholders
                           (map (fun _ : expr => "?") l))
               = List.length l).
    { induction l as [|y l IH]; simpl; [reflexivity | now rewrite IH]. }
    rewrite H. cbn [List.length]. rewrite length_map. simpl. lia.
Qed.

Lemma quote_loop_map (paths acc : list string) :
  FieldExpr.quote_loop paths acc = (acc ++ map quoted paths)%list.
Proof.
  revert acc; induction paths as [|p paths IH]; intros acc; simpl.
  - now rewrite app_nil_r.
  - rewrite IH, <- app_assoc. reflexivity.
Qed.

Lemma firstn_length_app {A : Type} (l r : list A) :
  firstn (List.length l) (l ++ r) = l.
Proof.
  rewrite firstn_app, firstn_all, Nat.sub_diag. simpl. apply app_nil_r.
Qed.

Lemma json_path_snoc (init : list string) (last : string) :
  FieldExpr.json_path (init ++ [last])
  = Some (prefixed "->" (map quoted init) ++ "->>" ++ quoted last).
Proof.
  unfold FieldExpr.json_path. rewrite quote_loop_map. cbn [app].
  rewrite map_app. cbn [map].
  set (L := map quoted init).
  assert (HL : List.length (L ++ [quoted last]) = S (List.length L)).
  { rewrite length_app. simpl. lia. }
  rewrite HL.
  replace (Z.of_nat (S (List.length L)) - 1)%Z
    with (Z.of_nat (List.length L)) by lia.
  destruct (Z.ltb_spec (Z.of_nat (List.length L)) 0); [lia|].
  rewrite Nat2Z.id, firstn_length_app, nth_middle.
  subst L. destruct init as [|a init]; [reflexivity|].
  cbn [map]. rewrite concat_cons. unfold quoted at 1 3.
  cbn [append String.length Nat.ltb Nat.leb]. reflexivity.
Qed.

(** X20.  [JsonEq], [JsonValueNull] and [JsonValueNotNull] fail on an
    empty path list (the slice bound is [-1]); on [p1, .., pn, last] they
    write [?], then [->'pi'] for every leading element, then [->>'last']
    and the comparison.  The elements are copied into the text as they
    are, so the text holds the placeholders of the function and one more
    for every [?] inside a path element, while the variables are those of
    the function only. *)
Theorem Json_paths (x : expr) (v : value) (init : list string)
    (last : string) :
  FieldExpr.JsonEq x [] v = None
  /\ FieldExpr.JsonValueNull x [] = None
  /\ FieldExpr.JsonValueNotNull x [] = None
  /\ FieldExpr.JsonEq x (init ++ [last]) v
     = Some (setE x (mkExpr ("?" ++ prefixed "->" (map quoted init)
                             ++ "->>" ++ quoted last ++ " = ?")
                       [RawExpr x; v]))
  /\ FieldExpr.JsonValueNull x (init ++ [last])
     = Some (setE x (mkExpr ("?" ++ prefixed "->" (map quoted init)
                             ++ "->>" ++ quoted last ++ " is null")
                       [RawExpr x]))
  /\ FieldExpr.JsonValueNotNull x (init ++ [last])
     = Some (setE x (mkExpr ("?" ++ prefixed "->" (map quoted init)
                             ++ "->>" ++ quoted last ++ " is not null")
                       [RawExpr x]))
  /\ count_placeholders ("?" ++ prefixed "->" (map quoted init)
                         ++ "->>" ++ quoted last ++ " = ?")
     = (2 + list_sum (map count_placeholders (init ++ [last])))%nat.
Proof.
  split; [reflexivity|]. split; [reflexivity|]. split; [reflexivity|].
  unfold FieldExpr.JsonEq, FieldExpr.JsonValueNull,
    FieldExpr.JsonValueNotNull.
  rewrite json_path_snoc.
  split; [do 3 f_equal; string_norm; reflexivity|].
  split; [do 3 f_equal; string_norm; reflexivity|].
  split; [do 3 f_equal; string_norm; reflexivity|].
  assert (Q : forall p, count_placeholders (quoted p) = count_placeholders p).
  { intros p. unfold quoted. rewrite !count_placeholders_append.
    simpl. lia. }
  rewrite !count_placeholders_append, count_placeholders_prefixed,
    map_map, map_app, !length_map, Q.
  rewrite (map_ext _ count_placeholders Q).
  assert (Hsum : forall a b,
             list_sum (a ++ b) = (list_sum a + list_sum b)%nat).
  { induction a as [|n a IH]; intros b'; simpl; [reflexivity|].
    rewrite IH. lia. }
  rewrite Hsum. simpl. lia.
Qed.

Lemma case_loop_combine (Sprint : value -> string)
    (conditions results : list expr) :
  forall (i : nat) (cases : list string) (vars : list value),
    (i <= List.length results)%nat ->
    FieldExpr.case_loop Sprint i conditions results (cases, vars)
    = if (i + List.length conditions <=? List.length results)%nat then
        Some ((cases
               ++ map (when_text Sprint)
                    (combine conditions (skipn i results)))%list,
              (vars
               ++ flat_map pair_vars
                    (combine conditions (skipn i results)))%list)
      else None.
Proof.
  induction conditions as [|c conditions IH]; intros i cases vars Hi.
  - cbn [FieldExpr.case_loop List.length combine map flat_map].
    rewrite Nat.add_0_r.
    destruct (Nat.leb_spec i (List.length results)); [|lia].
    now rewrite !app_nil_r.
  - cbn [FieldExpr.case_loop List.length].
    destruct (skipn i results) as [|r t] eqn:E.
    + assert (Hlen : (List.length results <= i)%nat).
      { pose proof (length_skipn i results) as H. rewrite E in H.
        simpl in H. lia. }
      rewrite (proj2 (nth_error_None results i) Hlen).
      destruct (Nat.leb_spec (i + S (List.length conditions))
                  (List.length results)); [lia | reflexivity].
    + destruct (skipn_cons_inv c i results r t E) as (Hn & Hs & Hlt).
      rewrite (nth_error_nth' results c Hlt), Hn.
      rewrite IH by lia. rewrite Hs.
      replace (S i + List.length conditions)%nat
        with (i + S (List.length conditions))%nat by lia.
      destruct (i + S (List.length conditions) <=? List.length results)%nat;
        [|reflexivity].
      cbn [combine map flat_map fst snd]. rewrite <- !app_assoc.
      reflexivity.
Qed.

(** X21.  [CaseWhen] pairs the conditions with the results by position.
    With fewer results than conditions it fails on the first missing
    result; otherwise it writes one [WHEN .. THEN ..] per condition
    between [CASE ] and [ ELSE NULL END], collects the condition and the
    result of every pair in turn, and does not read the results past the
    last condition. *)
Theorem CaseWhen_pairs_by_position (Sprint : value -> string) (x : expr)
    (conditions results : list expr) :
  FieldExpr.CaseWhen Sprint x conditions results
  = if (List.length conditions <=? List.length results)%nat then
      Some (setE x
              (mkExpr
                 ("CASE "
                  ++ String.concat " "
                       (map (when_text Sprint) (combine conditions results))
                  ++ " ELSE NULL END")
                 (flat_map pair_vars (combine conditions results))))
    else None.
Proof.
  unfold FieldExpr.CaseWhen.
  rewrite case_loop_combine by lia. cbn [Nat.add skipn app].
  destruct (List.length conditions <=? List.length results)%nat;
    reflexivity.
Qed.

(** One condition and no result: the call fails; two conditions and three
    results: the third result is not read. *)
Example CaseWhen_examples :
  FieldExpr.CaseWhen (fun _ => "v") salary [salary] [] = None
  /\ FieldExpr.CaseWhen (fun _ => "v") salary [salary; department]
       [hire_date; salary; department]
     = Some (setE salary
               (mkExpr "CASE WHEN v THEN v WHEN v THEN v ELSE NULL END"
                  [RawExpr salary; RawExpr hire_date;
                   RawExpr department; RawExpr salary])).
Proof. split; reflexivity. Qed.

(** X22.  [As] never changes the column name.  On a plain column it sets
    the alias of the column, so of two aliases the later one stays; on an
    expression it wraps the expression in [? AS ?] with the alias as
    second variable, so a second alias wraps the first. *)
Theorem As_sets_or_wraps (x : expr) (a b : string) :
  ColumnName (FieldExpr.As x a) = ColumnName x
  /\ match e x with
     | None =>
         FieldExpr.As (FieldExpr.As x a) b = FieldExpr.As x b
         /\ RawExpr (FieldExpr.As x a)
            = VColumn {| Table := Table (col x); Name := Name (col x);
                         Alias := a; Raw := Raw (col x) |}
     | Some ex =>
         RawExpr (FieldExpr.As (FieldExpr.As x a) b)
         = VExpr (mkExpr "? AS ?"
                    [VExpr (mkExpr "? AS ?"
                              [VExpr ex; VColumn (mkColumn "" a "" false)]);
                     VColumn (mkColumn "" b "" false)])
     end.
Proof.
  unfold FieldExpr.As, ColumnName, RawExpr.
  destruct x as [c [ex|] o]; cbn; repeat split.
Qed.
